(** * Conector: the multi-tenant session manager

    A shallow embedding of the [ClientManager] class of the backend (the
    class at the end of src/backend/src/routes/session.ts), of the session
    and API routes in front of it, of the migration that adds the
    [webhook_trigger] column and of the state the dashboard keeps from its
    socket, with the properties the specification states about them and
    further properties of the code.

    The manager is asynchronous TypeScript on a single thread.  An [async]
    method runs synchronously up to its first [await]; there it hands a
    call to an outside capability (the WhatsApp client, the file system,
    the config store, the HTTP client) and is resumed later, in a turn of
    its own, with the settled result.  The embedding keeps that structure:
    a method is a tree of synchronous steps and awaits ([Prog]); [exec]
    runs such a tree, either alone with the outcomes of its calls given by
    an oracle, or for one turn only; and the event loop ([step])
    interleaves the turns of all tasks in every possible order.

    What the embedding takes from the outside libraries: the constructor
    of [LocalAuth] throws for a client id it does not accept (see
    [valid_clientId]) and constructing a [Client] does not throw
    otherwise; registering callbacks, [io.to(room).emit], [console.*] and
    [path.join] do not throw; every awaited call may resolve or reject, at
    any later time.  A promise that rejects with nobody awaiting it is
    recorded as such ([Unhandled]); what the runtime then does with the
    process is outside the embedding. *)

From stdpp Require Import gmap strings list fin_maps relations.
From Stdlib Require Import String.

Local Open Scope string_scope.

(** ** Strings, as the source uses them *)

Module Js.

(** [s.startsWith(pat)] *)
Definition startsWith (pat s : string) : bool := String.prefix pat s.

(** Drop the first [n] characters (the tail [s.slice(n)]). *)
Fixpoint skip (n : nat) (s : string) : string :=
  match n, s with
  | O, _ => s
  | S n', String _ s' => skip n' s'
  | S _, EmptyString => EmptyString
  end.

(** [s.replace(pat, rep)] with a string pattern: only the first
    occurrence is replaced ([rep] is taken literally; the source only
    passes the empty string). *)
Fixpoint replace (pat rep s : string) : string :=
  if String.prefix pat s then rep ++ skip (String.length pat) s
  else match s with
       | EmptyString => EmptyString
       | String c s' => String c (replace pat rep s')
       end.

(** [s.includes(pat)] *)
Fixpoint includes (pat s : string) : bool :=
  if String.prefix pat s then true
  else match s with
       | EmptyString => false
       | String _ s' => includes pat s'
       end.

(** A value read from JSON or from a nullable text column. *)
Inductive text : Type :=
| Undefined
| Null
| Text (s : string).

(** Truthiness of such a value: [undefined], [null] and [''] are falsy. *)
Definition truthy (v : text) : bool :=
  match v with
  | Text (String _ _) => true
  | _ => false
  end.

(** [v || dflt] *)
Definition or (v : text) (dflt : string) : string :=
  match v with
  | Text (String c s) => String c s
  | _ => dflt
  end.

End Js.

(** ** Data *)

(** A thrown value; the manager only ever logs it. *)
Abbreviation Err := string.

(** [Client] objects live in a heap; a [Client] value is a reference. *)
Abbreviation Client := nat.

(** What the constructor call [new Client({authStrategy: new LocalAuth({clientId, dataPath}), ...})]
    fixes for the object (the puppeteer options are constants). *)
Record ClientObj : Type := mkClientObj {
  clientId : string;
  dataPath : string
}.

(** The fields of a whatsapp-web.js message that [dispatchWebhook] reads. *)
Record Message : Type := mkMessage {
  m_from : string;
  m_to : string;
  m_body : string;
  m_type : string;
  m_timestamp : Z;
  m_notifyName : Js.text;      (* message._data?.notifyName *)
  m_hasMedia : bool;
  m_id : string;               (* message.id._serialized *)
  m_fromMe : bool
}.

(** The JSON body posted to the tenant's webhook. *)
Record Payload : Type := mkPayload {
  p_from : string;
  p_to : string;
  p_body : string;
  p_type : string;
  p_timestamp : Z;
  p_notifyName : string;
  p_hasMedia : bool;
  p_isGroup : bool;
  p_id : string;
  p_fromMe : bool
}.

(** A row of [user_configs] restricted to the selected columns. *)
Record ConfigRow : Type := mkConfigRow {
  webhook_url : Js.text;
  webhook_trigger : Js.text
}.

(** The [{ data, error }] pair a supabase query resolves to. *)
Record Selected : Type := mkSelected {
  sel_data : option ConfigRow;
  sel_error : option Err
}.

(** [path.join(dir, name)], kept symbolic. *)
Inductive fspath : Type :=
| Join (dir name : string).

(** Calls to outside capabilities that the manager awaits. *)
Inductive ExtCall : Type :=
| Initialize (c : Client)
| Logout (c : Client)
| Destroy (c : Client)
| EnsureDir (dir : string)
| Readdir (dir : string)
| PathExists (p : fspath)
| Remove (p : fspath)
| ConfigSelect (userId : string)
| AxiosPost (url : string) (body : Payload).

(** The type of the value each call resolves to. *)
Definition answer (c : ExtCall) : Type :=
  match c with
  | Readdir _ => list string
  | PathExists _ => bool
  | ConfigSelect _ => Selected
  | _ => unit
  end.

(** A settled promise. *)
Inductive Settled (X : Type) : Type :=
| Resolved (x : X)
| Rejected (e : Err).
Arguments Resolved {X} x.
Arguments Rejected {X} e.

(** Data pushed over the socket. *)
Inductive EventData : Type :=
| DStatus (status : string)        (* { status } *)
| DQr (qr : string)                (* the raw QR string *)
| DEmpty                           (* {} *)
| DError (message : string)        (* { message } *)
| DReason (reason : string).       (* { reason } *)

Inductive Level : Type := LLog | LWarn | LError.

(** What the manager does to the outside world, in order. *)
Inductive Effect : Type :=
| Emitted (room event : string) (data : EventData)   (* io.to(room).emit(event, data) *)
| Console (lvl : Level) (msg : string) (arg : option Err)
| Issued (c : ExtCall)                                (* the call was made *)
| Unhandled (e : Err).                                (* a promise nobody awaits rejected *)

(** The manager's fields, the heap of clients and the effects so far. *)
Record World : Type := mkWorld {
  clients : gmap string Client;      (* private clients: Map<string, Client> *)
  lastQr : gmap string string;       (* private lastQr: Map<string, string> *)
  authDir : string;                  (* private authDir: string *)
  objects : list ClientObj;          (* every Client constructed so far *)
  trace : list Effect
}.

Definition with_clients (f : gmap string Client -> gmap string Client) (w : World) : World :=
  mkWorld (f (clients w)) (lastQr w) (authDir w) (objects w) (trace w).
Definition with_lastQr (f : gmap string string -> gmap string string) (w : World) : World :=
  mkWorld (clients w) (f (lastQr w)) (authDir w) (objects w) (trace w).
Definition alloc (o : ClientObj) (w : World) : World :=
  mkWorld (clients w) (lastQr w) (authDir w) (objects w ++ [o]) (trace w).
Definition record (e : Effect) (w : World) : World :=
  mkWorld (clients w) (lastQr w) (authDir w) (objects w) (trace w ++ [e]).

(** ** Asynchronous programs *)

Inductive Prog (A : Type) : Type :=
| Ret (a : A)
| Throw (e : Err)
| Sync {X : Type} (f : World -> X * World) (k : X -> Prog A)
| Await (c : ExtCall) (k : Settled (answer c) -> Prog A)
| Spawn (t : Prog unit) (k : Prog A).
Arguments Ret {A} a.
Arguments Throw {A} e.
Arguments Sync {A X} f k.
Arguments Await {A} c k.
Arguments Spawn {A} t k.

Fixpoint bind {A B : Type} (p : Prog A) (f : A -> Prog B) : Prog B :=
  match p with
  | Ret a => f a
  | Throw e => Throw e
  | Sync g k => Sync g (fun x => bind (k x) f)
  | Await c k => Await c (fun s => bind (k s) f)
  | Spawn t k => Spawn t (bind k f)
  end.

(** [try { p } catch (e) { h e }]: a task started without [await] inside
    the block is not covered by it. *)
Fixpoint try_catch {A : Type} (p : Prog A) (h : Err -> Prog A) : Prog A :=
  match p with
  | Ret a => Ret a
  | Throw e => h e
  | Sync g k => Sync g (fun x => try_catch (k x) h)
  | Await c k => Await c (fun s => try_catch (k s) h)
  | Spawn t k => Spawn t (try_catch k h)
  end.

Declare Scope prog_scope.
Delimit Scope prog_scope with prog.
Bind Scope prog_scope with Prog.
Notation "x <- p ;; q" := (bind p (fun x => q))
  (at level 100, p at next level, right associativity) : prog_scope.
Notation "p ;; q" := (bind p (fun _ => q))
  (at level 100, right associativity) : prog_scope.
Local Open Scope prog_scope.

(** [await call]: a rejection is thrown at the await. *)
Definition await (c : ExtCall) : Prog (answer c) :=
  Await c (fun s => match s with Resolved x => Ret x | Rejected e => Throw e end).

(** Calling an async function and dropping its promise. *)
Definition detach {A : Type} (p : Prog A) : Prog unit :=
  Spawn (p ;; Ret tt) (Ret tt).

Definition act (f : World -> World) : Prog unit :=
  Sync (fun w => (tt, f w)) Ret.
Definition read {X : Type} (f : World -> X) : Prog X :=
  Sync (fun w => (f w, w)) Ret.

(** *** The manager's primitive steps *)

Definition console_log (msg : string) : Prog unit := act (record (Console LLog msg None)).
Definition console_warn (msg : string) (e : Err) : Prog unit := act (record (Console LWarn msg (Some e))).
Definition console_error (msg : string) (e : Err) : Prog unit := act (record (Console LError msg (Some e))).

Definition clients_has (userId : string) : Prog bool :=
  read (fun w => match clients w !! userId with Some _ => true | None => false end).
Definition clients_get (userId : string) : Prog (option Client) :=
  read (fun w => clients w !! userId).
Definition clients_set (userId : string) (c : Client) : Prog unit :=
  act (with_clients (insert userId c)).
Definition clients_delete (userId : string) : Prog unit :=
  act (with_clients (delete userId)).
Definition lastQr_set (userId qr : string) : Prog unit :=
  act (with_lastQr (insert userId qr)).
Definition lastQr_delete (userId : string) : Prog unit :=
  act (with_lastQr (delete userId)).

(** The client ids the constructor of whatsapp-web.js's [LocalAuth]
    accepts.  It begins
    [const idRegex = /^[-_\w]+$/i;
     if (clientId && !idRegex.test(clientId)) throw new Error('Invalid clientId. ...')]:
    an id is accepted when it is empty or made of letters, digits,
    underscores and hyphens only. *)
Definition id_char (a : Ascii.ascii) : bool :=
  let n := Ascii.nat_of_ascii a in
  (Nat.leb 48 n && Nat.leb n 57) || (Nat.leb 65 n && Nat.leb n 90) ||
  (Nat.leb 97 n && Nat.leb n 122) || Nat.eqb n 95 || Nat.eqb n 45.

Fixpoint valid_clientId (clientId : string) : bool :=
  match clientId with
  | EmptyString => true
  | String a rest => id_char a && valid_clientId rest
  end.

Definition invalid_clientId : Err :=
  "Invalid clientId. Only alphanumeric characters, underscores and hyphens are allowed.".

(** [new Client({ authStrategy: new LocalAuth({ clientId: userId, dataPath: this.authDir }), ... })]:
    the strategy is constructed first, and its constructor may throw. *)
Definition new_Client (userId : string) : Prog Client :=
  if valid_clientId userId then
    Sync (fun w => (List.length (objects w), alloc (mkClientObj userId (authDir w)) w)) Ret
  else Throw invalid_clientId.

(** ** ClientManager *)

(** [getClient] and [getQr] are plain reads. *)
Definition getClient (userId : string) (w : World) : option Client := clients w !! userId.
Definition getQr (userId : string) (w : World) : option string := lastQr w !! userId.

Definition emitToUser (userId event : string) (data : EventData) : Prog unit :=
  act (record (Emitted userId event data)).

(** [const payload = { from, to, body, type, timestamp, notifyName, hasMedia,
    isGroup, id, fromMe }] *)
Definition payload_of (message : Message) : Payload :=
  {| p_from := m_from message;
     p_to := m_to message;
     p_body := m_body message;
     p_type := m_type message;
     p_timestamp := m_timestamp message;
     p_notifyName := Js.or (m_notifyName message) "";
     p_hasMedia := m_hasMedia message;
     p_isGroup := Js.includes "@g.us" (m_from message);
     p_id := m_id message;
     p_fromMe := m_fromMe message |}.

Definition dispatchWebhook (userId : string) (message : Message) : Prog unit :=
  try_catch
    (sel <- await (ConfigSelect userId) ;;
     match sel_error sel, sel_data sel with
     | Some _, _ => Ret tt                       (* if (error ... *)
     | None, None => Ret tt                      (*  || !data ... *)
     | None, Some data =>
       if negb (Js.truthy (webhook_url data)) then Ret tt else   (*  || !data.webhook_url) return; *)
       let url := Js.or (webhook_url data) "" in
       let trigger := Js.or (webhook_trigger data) "incoming" in
       let isOutgoing := m_fromMe message in
       if String.eqb trigger "incoming" && isOutgoing then Ret tt else
       if String.eqb trigger "outgoing" && negb isOutgoing then Ret tt else
       let payload := payload_of message in
       console_log ("Sending webhook to " ++ url ++ " for " ++ userId) ;;
       await (AxiosPost url payload) ;;
       Ret tt
     end)
    (fun err => console_error ("Error sending webhook for " ++ userId) err).

(** The five callbacks [startClient] attaches with [client.on]; each
    closes over [userId]. *)
Inductive ClientEvent : Type :=
| EvQr (qr : string)
| EvReady
| EvAuthFailure (msg : string)
| EvMessage (message : Message)
| EvDisconnected (reason : string).

Definition on_qr (userId qr : string) : Prog unit :=
  console_log ("QR received for " ++ userId) ;;
  lastQr_set userId qr ;;
  emitToUser userId "qr" (DQr qr).

Definition on_ready (userId : string) : Prog unit :=
  console_log ("Client " ++ userId ++ " is ready!") ;;
  lastQr_delete userId ;;
  emitToUser userId "ready" DEmpty ;;
  emitToUser userId "status" (DStatus "CONNECTED").

Definition on_auth_failure (userId msg : string) : Prog unit :=
  console_error ("Auth failure for " ++ userId ++ ": ") msg ;;
  emitToUser userId "error" (DError "Auth failure").

Definition on_message (userId : string) (message : Message) : Prog unit :=
  dispatchWebhook userId message.

Definition on_disconnected (userId reason : string) : Prog unit :=
  console_log ("Client " ++ userId ++ " disconnected: " ++ reason ++ " ") ;;
  emitToUser userId "disconnected" (DReason reason) ;;
  clients_delete userId.

Definition handler (userId : string) (ev : ClientEvent) : Prog unit :=
  match ev with
  | EvQr qr => on_qr userId qr
  | EvReady => on_ready userId
  | EvAuthFailure msg => on_auth_failure userId msg
  | EvMessage message => on_message userId message
  | EvDisconnected reason => on_disconnected userId reason
  end.

Definition startClient (userId : string) : Prog (option Client) :=
  has <- clients_has userId ;;
  if has : bool then
    existing <- clients_get userId ;;
    emitToUser userId "status" (DStatus "CONNECTED") ;;
    Ret existing
  else
    console_log ("Starting client for " ++ userId) ;;
    emitToUser userId "status" (DStatus "INITIALIZING") ;;
    client <- new_Client userId ;;
    (* client.on('qr' | 'ready' | 'auth_failure' | 'message' | 'disconnected', ...):
       see [handler] *)
    clients_set userId client ;;
    try_catch
      (await (Initialize client))
      (fun error =>
         console_error ("Failed to initialize client for " ++ userId) error ;;
         emitToUser userId "error" (DError "Failed to initialize")) ;;
    Ret (Some client).

Definition deleteSession (userId : string) : Prog unit :=
  client <- clients_get userId ;;
  match client with
  | Some c =>
    try_catch (await (Logout c)) (fun e => console_warn "Logout failed" e) ;;
    try_catch (await (Destroy c)) (fun e => console_warn "Destroy failed" e) ;;
    clients_delete userId
  | None => Ret tt
  end ;;
  dir <- read authDir ;;
  let sessionDir := Join dir ("session-" ++ userId) in
  present <- await (PathExists sessionDir) ;;
  (if present : bool then
     try_catch
       (await (Remove sessionDir) ;;
        console_log ("Session files deleted for " ++ userId))
       (fun e => console_error "Could not delete session files" e)
   else Ret tt) ;;
  emitToUser userId "disconnected" (DReason "logout").

(** The body of the [for (const item of items)] loop of [init]. *)
Fixpoint restore (items : list string) : Prog unit :=
  match items with
  | [] => Ret tt
  | item :: rest =>
    (if Js.startsWith "session-" item then
       let userId := Js.replace "session-" "" item in
       console_log ("Found persisted session for: " ++ userId ++ ", restoring...") ;;
       detach (startClient userId)
     else Ret tt) ;;
    restore rest
  end.

Definition init : Prog unit :=
  console_log "Initializing ClientManager..." ;;
  dir <- read authDir ;;
  await (EnsureDir dir) ;;
  try_catch
    (items <- await (Readdir dir) ;;
     restore items)
    (fun err => console_error "Error restoring sessions:" err).

(** ** Running programs *)

Inductive Result (A : Type) : Type :=
| Normal (a : A)
| Thrown (e : Err).
Arguments Normal {A} a.
Arguments Thrown {A} e.

(** A task waiting for a call to settle, with what it does next. *)
Inductive Pending : Type :=
| Parked (c : ExtCall) (k : Settled (answer c) -> Prog unit).

Inductive Status (A : Type) : Type :=
| Finished (r : Result A)
| Blocked (c : ExtCall) (k : Settled (answer c) -> Prog A).
Arguments Finished {A} r.
Arguments Blocked {A} c k.

Record Out (A : Type) : Type := mkOut {
  final : World;
  parked : list Pending;         (* detached tasks left waiting *)
  status : Status A
}.
Arguments mkOut {A} _ _ _.
Arguments final {A} _.
Arguments parked {A} _.
Arguments status {A} _.

(** How the awaited calls settle.  [None]: not yet, the task has to wait. *)
Definition Oracle : Type := forall c : ExtCall, option (Settled (answer c)).

Definition silent : Oracle := fun _ => None.

(** Where a task that has run as far as it can leaves the world and the pool:
    a rejection nobody awaits is reported, a blocked task is parked. *)
Definition settle (o : Out unit) : World :=
  match status o with
  | Finished (Thrown e) => record (Unhandled e) (final o)
  | _ => final o
  end.

Definition waiting (o : Out unit) : list Pending :=
  match status o with
  | Blocked c k => [Parked c k]
  | _ => []
  end.

(** [exec orc p w] runs [p] from [w].  Synchronous steps run at once.  At
    an await the call is issued; if [orc] settles it the task goes on
    (nothing else runs in between), otherwise the run stops there.  A
    detached task runs up to its first await, inside the caller's turn, and
    is then left to the event loop. *)
Fixpoint exec {A : Type} (orc : Oracle) (p : Prog A) (w : World) : Out A :=
  match p with
  | Ret a => mkOut w [] (Finished (Normal a))
  | Throw e => mkOut w [] (Finished (Thrown e))
  | Sync f k => exec orc (k (f w).1) (f w).2
  | Await c k =>
    match orc c with
    | Some s => exec orc (k s) (record (Issued c) w)
    | None => mkOut (record (Issued c) w) [] (Blocked c k)
    end
  | Spawn t k =>
    let o := exec silent t w in
    let r := exec orc k (settle o) in
    mkOut (final r) (parked o ++ waiting o ++ parked r) (status r)
  end.

(** ** The event loop *)

Record Loop : Type := mkLoop {
  world : World;
  pool : list Pending
}.

(** One turn: run a task until it finishes or waits. *)
Definition turn (p : Prog unit) (others : list Pending) (w : World) : Loop :=
  let o := exec silent p w in
  mkLoop (settle o) (others ++ parked o ++ waiting o).

(** What can start a task: the routes ([/start], [/logout]), server start-up
    ([init]) and the events of any client constructed so far. *)
Inductive Request : Type :=
| ReqStart (userId : string)
| ReqDelete (userId : string)
| ReqInit
| ReqEvent (c : Client) (ev : ClientEvent).

Definition entry (r : Request) (w : World) : option (Prog unit) :=
  match r with
  | ReqStart userId => Some (startClient userId ;; Ret tt)
  | ReqDelete userId => Some (deleteSession userId)
  | ReqInit => Some init
  | ReqEvent c ev =>
    match objects w !! c with
    | Some o => Some (handler (clientId o) ev)
    | None => None
    end
  end.

Inductive step : Loop -> Loop -> Prop :=
| step_request (l : Loop) (r : Request) (p : Prog unit) :
    entry r (world l) = Some p ->
    step l (turn p (pool l) (world l))
| step_settle (l : Loop) (i : nat) (c : ExtCall) (k : Settled (answer c) -> Prog unit)
              (s : Settled (answer c)) :
    pool l !! i = Some (Parked c k) ->
    step l (turn (k s) (delete i (pool l)) (world l)).

Definition boot (dir : string) : Loop :=
  mkLoop (mkWorld ∅ ∅ dir [] []) [].

Definition reachable (l : Loop) : Prop :=
  exists dir, rtc step (boot dir) l.

(** ** The route that saves the webhook configuration, and the migration *)

(** POST /config/webhook: the row handed to [upsert]. *)
Record ConfigUpsert : Type := mkConfigUpsert {
  up_user_id : string;
  up_webhook_url : Js.text;
  up_webhook_trigger : Js.text
}.

Definition save_webhook (user_id : string) (webhook_url webhook_trigger : Js.text)
  : ConfigUpsert :=
  {| up_user_id := user_id;
     up_webhook_url := webhook_url;
     up_webhook_trigger := Js.Text (Js.or webhook_trigger "incoming") |}.

(** migrations/add_webhook_trigger.sql:
    [ADD COLUMN IF NOT EXISTS webhook_trigger TEXT DEFAULT 'incoming'] *)
Definition webhook_trigger_column_default : Js.text := Js.Text "incoming".

(** What the column holds for a row inserted with or without a value for it. *)
Definition inserted_trigger (written : option Js.text) : Js.text :=
  match written with
  | Some v => v
  | None => webhook_trigger_column_default
  end.

(** ** The routes *)

(** The separator of [split(' ')]: the character of code 32. *)
Definition space : Ascii.ascii :=
  Ascii.Ascii false false false false false true false false.

(** [s.split(sep)] for a one-character separator. *)
Fixpoint split_on (sep : Ascii.ascii) (s : string) : list string :=
  match s with
  | EmptyString => [EmptyString]
  | String c s' =>
    if Ascii.eqb c sep then EmptyString :: split_on sep s'
    else match split_on sep s' with
         | h :: t => String c h :: t
         | [] => [String c EmptyString]
         end
  end.

(** What a route answers: the status code and the JSON body. *)
Inductive Body : Type :=
| BError (error : string)                     (* { error } *)
| BSuccess                                    (* { success: true } *)
| BStarted (message : string).                (* { success: true, message } *)

Record Reply : Type := mkReply {
  code : nat;
  body : Body
}.

(** A middleware either answers the request itself or lets it through with
    the user it found. *)
Inductive Gate : Type :=
| Denied (reply : Reply)
| Passed (userId : string).

(** [req.headers['authorization']?.split(' ')[1]] *)
Definition bearer_token (authorization : Js.text) : Js.text :=
  match authorization with
  | Js.Text s =>
    match split_on space s !! 1 with
    | Some t => Js.Text t
    | None => Js.Undefined
    end
  | _ => Js.Undefined
  end.

(** What [supabase.auth.getUser(token)] resolves to:
    [{ data: { user }, error }], the user reduced to its id. *)
Record UserAnswer : Type := mkUserAnswer {
  ua_user : option string;
  ua_error : option Err
}.

(** The middleware [supabaseAuth] of the session routes; [getUser] stands
    for the auth service. *)
Definition supabaseAuth (authorization : Js.text) (getUser : string -> UserAnswer) : Gate :=
  let token := bearer_token authorization in
  if negb (Js.truthy token) then Denied (mkReply 401 (BError "Missing token")) else
  let answer := getUser (Js.or token "") in
  match ua_error answer, ua_user answer with
  | None, Some user => Passed user
  | _, _ => Denied (mkReply 403 (BError "Invalid token"))
  end.

(** What the lookup of a user by API key resolves to: [{ data, error }]
    with [data.user_id]. *)
Record KeyAnswer : Type := mkKeyAnswer {
  ka_user_id : option string;
  ka_error : option Err
}.

(** The middleware [apiKeyAuth] of the API routes. *)
Definition apiKeyAuth (x_api_key : Js.text) (lookup : string -> KeyAnswer) : Gate :=
  if negb (Js.truthy x_api_key) then Denied (mkReply 401 (BError "Missing API Key")) else
  let answer := lookup (Js.or x_api_key "") in
  match ka_error answer, ka_user_id answer with
  | None, Some user_id => Passed user_id
  | _, _ => Denied (mkReply 403 (BError "Invalid API Key"))
  end.

(** POST /session/start: the client is started without waiting for it. *)
Definition route_start (userId : string) : Prog Reply :=
  try_catch
    (detach (startClient userId) ;;
     Ret (mkReply 200 (BStarted "Client initializing...")))
    (fun e => Ret (mkReply 500 (BError e))).

(** POST /session/logout *)
Definition route_logout (userId : string) : Prog Reply :=
  deleteSession userId ;;
  Ret (mkReply 200 BSuccess).

(** GET /session/qr: the body is [{ qr }], without the field when there
    is no pairing artifact. *)
Definition route_qr (userId : string) (w : World) : option string :=
  getQr userId w.

(** POST /session/config/apikey: either the request is refused, or the row
    is handed to [upsert]. *)
Inductive ApiKeyPlan : Type :=
| KeyRefused (reply : Reply)
| KeyUpsert (user_id api_key : string).

Definition save_apikey (user_id : string) (api_key : Js.text) : ApiKeyPlan :=
  if negb (Js.truthy api_key) || Nat.ltb (String.length (Js.or api_key "")) 8
  then KeyRefused (mkReply 400 (BError "API Key must be at least 8 characters"))
  else KeyUpsert user_id (Js.or api_key "").

(** The body of POST /api/send-message, each field a string, [undefined]
    or [null]. *)
Record SendRequest : Type := mkSendRequest {
  sr_number : Js.text;
  sr_message : Js.text;
  sr_mediaUrl : Js.text;
  sr_mediaBase64 : Js.text;
  sr_mediaType : Js.text
}.

(** What is handed to [client.sendMessage]: a text, a media object built
    from inline data, or one to be fetched from a URL first. *)
Inductive Content : Type :=
| CText (text : string)
| CInline (mimetype data : string) (caption : Js.text)
| CFromUrl (url : string) (caption : Js.text).

(** [number.includes('@c.us') ? number : `${number}@c.us`] *)
Definition chatId_of (number : string) : string :=
  if Js.includes "@c.us" number then number else number ++ "@c.us".

(** The route up to its call on the client: it answers at once, or sends. *)
Inductive SendPlan : Type :=
| Answer (reply : Reply)
| SendTo (client : Client) (chatId : string) (content : Content).

Definition send_message (userId : string) (req : SendRequest) (w : World) : SendPlan :=
  if negb (Js.truthy (sr_number req))
  then Answer (mkReply 400 (BError "Number is required")) else
  match getClient userId w with
  | None => Answer (mkReply 503 (BError "Session not active"))
  | Some client =>
    let chatId := chatId_of (Js.or (sr_number req) "") in
    if Js.truthy (sr_mediaBase64 req) then
      SendTo client chatId
             (CInline (Js.or (sr_mediaType req) "image/png") (Js.or (sr_mediaBase64 req) "")
                      (sr_message req))
    else if Js.truthy (sr_mediaUrl req) then
      SendTo client chatId (CFromUrl (Js.or (sr_mediaUrl req) "") (sr_message req))
    else
      SendTo client chatId (CText (Js.or (sr_message req) ""))
  end.

(** [router.post('/send-message', apiKeyAuth, ...)]: the route behind its
    middleware. *)
Definition api_send_message (x_api_key : Js.text) (lookup : string -> KeyAnswer)
           (req : SendRequest) (w : World) : SendPlan :=
  match apiKeyAuth x_api_key lookup with
  | Denied reply => Answer reply
  | Passed userId => send_message userId req w
  end.

(** GET /api/status: [getState] stands for the call on the client. *)
Inductive StatusReport : Type :=
| NoActiveSession                   (* { status: 'DISCONNECTED', reason: 'No active session' } *)
| Connected (state : Js.text)       (* { status: 'CONNECTED', state } *)
| StateFailed (error : string).     (* { status: 'DISCONNECTED', error } *)

Definition route_status (userId : string) (w : World)
           (getState : Client -> Settled Js.text) : StatusReport :=
  match getClient userId w with
  | None => NoActiveSession
  | Some client =>
    match getState client with
    | Resolved state => Connected state
    | Rejected e => StateFailed e
    end
  end.

(** ** The dashboard *)

(** [Authorization: `Bearer ${session.access_token}`] *)
Definition authorization_header (access_token : string) : string :=
  "Bearer " ++ access_token.

(** [saveApiKey]: the request body it posts, unless the input is too short. *)
Definition dashboard_saveApiKey (apiKeyInput : string) : option Js.text :=
  if Nat.ltb (String.length apiKeyInput) 8 then None else Some (Js.Text apiKeyInput).

Inductive DashStatus : Type := DISCONNECTED | CONNECTED | CONNECTING.

(** The state of the dashboard that the socket handlers write. *)
Record Dashboard : Type := mkDashboard {
  d_qr : option string;
  d_status : DashStatus;
  d_debugLog : list string
}.

(** [useState] initial values. *)
Definition dashboard_start : Dashboard := mkDashboard None CONNECTING [].

(** [setDebugLog(prev => [msg, ...prev].slice(0, 10))] *)
Definition addLog (msg : string) (d : Dashboard) : Dashboard :=
  mkDashboard (d_qr d) (d_status d) (take 10 (msg :: d_debugLog d)).

Definition setQr (qr : option string) (d : Dashboard) : Dashboard :=
  mkDashboard qr (d_status d) (d_debugLog d).
Definition setStatus (s : DashStatus) (d : Dashboard) : Dashboard :=
  mkDashboard (d_qr d) s (d_debugLog d).

(** What arrives on the dashboard's socket. *)
Inductive SocketEvent : Type :=
| SConnect (socketId userId : string)
| SConnectError (message json : string)
| SQr (data : string)
| SReady
| SStatus (status : string)
| SDisconnected.

(** The handlers [initSocket] registers. *)
Definition on_socket (ev : SocketEvent) (d : Dashboard) : Dashboard :=
  match ev with
  | SConnect socketId userId =>
    addLog ("Joining room: " ++ userId) (addLog ("Socket Connected! ID: " ++ socketId) d)
  | SConnectError message json =>
    addLog ("Socket Error: " ++ message ++ " (" ++ json ++ ")") d
  | SQr data =>
    setStatus CONNECTING (setQr (Some data) (addLog "QR Received via Socket!" d))
  | SReady =>
    setQr None (setStatus CONNECTED (addLog "Client Ready Event!" d))
  | SStatus status =>
    let d' := addLog ("Status Update: " ++ status) d in
    if String.eqb status "CONNECTED" then setQr None (setStatus CONNECTED d') else d'
  | SDisconnected =>
    setQr None (setStatus DISCONNECTED (addLog "Socket Disconnected" d))
  end.

(** What a push of the manager is on the socket of a dashboard that has
    joined room [T]: events for other rooms do not arrive, and the
    dashboard has no handler for [error].  Each event is matched with the
    data the manager pushes it with. *)
Definition arrives (T : string) (e : Effect) : option SocketEvent :=
  match e with
  | Emitted room event data =>
    if String.eqb room T then
      match data with
      | DQr qr => if String.eqb event "qr" then Some (SQr qr) else None
      | DEmpty => if String.eqb event "ready" then Some SReady else None
      | DStatus s => if String.eqb event "status" then Some (SStatus s) else None
      | DReason _ => if String.eqb event "disconnected" then Some SDisconnected else None
      | DError _ => None
      end
    else None
  | _ => None
  end.

(** The dashboard of tenant [T] after some effects of the manager. *)
Definition watch (T : string) (l : list Effect) (d : Dashboard) : Dashboard :=
  fold_left (fun d e => match arrives T e with
                        | Some ev => on_socket ev d
                        | None => d
                        end) l d.

(** One tick of the fallback poll, answered before anything else happens:
    the interval runs unless the status is CONNECTED, a refused request is
    caught silently, and a code is shown if the answer carries one. *)
Definition poll_qr (access_token : string) (getUser : string -> UserAnswer)
           (w : World) (d : Dashboard) : Dashboard :=
  match d_status d with
  | CONNECTED => d
  | _ =>
    match supabaseAuth (Js.Text (authorization_header access_token)) getUser with
    | Passed userId =>
      match route_qr userId w with
      | Some qr => if Js.truthy (Js.Text qr) then setQr (Some qr) d else d
      | None => d
      end
    | Denied _ => d
    end
  end.

(** * Vocabulary of the properties *)

(** ** Reading a run *)

(** The effects of a run, after those already in [w]. *)
Definition since {A : Type} (w : World) (r : Out A) : list Effect :=
  drop (List.length (trace w)) (trace (final r)).

(** The call a waiting task waits for, and what it does with the outcome. *)
Definition pcall (pd : Pending) : ExtCall :=
  match pd with Parked c _ => c end.
Definition resume (pd : Pending) : Settled (answer (pcall pd)) -> Prog unit :=
  match pd with Parked _ k => k end.

(** All the tasks a turn leaves waiting. *)
Definition pendings (o : Out unit) : list Pending := parked o ++ waiting o.

(** ** The registry across a turn *)

(** [c] is a client that was constructed for tenant [u]. *)
Definition owned (w : World) (u : string) (c : Client) : Prop :=
  exists o, objects w !! c = Some o /\ clientId o = u.

(** Every registered client was constructed for the tenant it is filed under. *)
Definition Inv (w : World) : Prop :=
  forall u c, clients w !! u = Some c -> owned w u c.

(** A turn from [w] to [w'] is careful when it keeps [Inv], never files a
    different client under a taken key, never forgets a constructed client,
    and constructs a client only for a tenant that had none, filing it at
    once. *)
Record careful (w w' : World) : Prop := mkCareful {
  keeps_inv : Inv w -> Inv w';
  keeps_entry : forall u c, clients w !! u = Some c ->
                            clients w' !! u = Some c \/ clients w' !! u = None;
  keeps_heap : forall c o, objects w !! c = Some o -> objects w' !! c = Some o;
  fresh_filed : forall c o, objects w !! c = None -> objects w' !! c = Some o ->
                            clients w !! clientId o = None /\
                            clients w' !! clientId o = Some c
}.

(** A turn is quiet when it leaves the pairing artifacts alone. *)
Definition quiet (w w' : World) : Prop := lastQr w' = lastQr w.

(** What every turn but those of the [qr] and [ready] handlers is. *)
Definition discreet (w w' : World) : Prop := careful w w' /\ quiet w w'.

(** The world only changed in its trace. *)
Definition same_state (w w' : World) : Prop :=
  clients w' = clients w /\ lastQr w' = lastQr w /\
  authDir w' = authDir w /\ objects w' = objects w.

(** The registry only grew, within one turn. *)
Record grows (w w' : World) : Prop := mkGrows {
  grows_inv : Inv w -> Inv w';
  grows_clients : forall u c, clients w !! u = Some c -> clients w' !! u = Some c;
  grows_heap : forall c o, objects w !! c = Some o -> objects w' !! c = Some o;
  grows_fresh : forall c o, objects w !! c = None -> objects w' !! c = Some o ->
                            clients w !! clientId o = None /\
                            clients w' !! clientId o = Some c;
  grows_quiet : lastQr w' = lastQr w
}.

(** The registry only lost entries. *)
Record shrinks (w w' : World) : Prop := mkShrinks {
  shrinks_clients : forall u c, clients w' !! u = Some c -> clients w !! u = Some c;
  shrinks_qr : lastQr w' = lastQr w;
  shrinks_dir : authDir w' = authDir w;
  shrinks_heap : objects w' = objects w
}.

(** ** Tasks over all their turns *)

(** A task is tame for [G] when every one of its turns, whenever it is
    taken and however its calls settle, is related by [G], and so is every
    turn of the tasks it detaches. *)
Inductive tame (G : World -> World -> Prop) : Prog unit -> Prop :=
| tame_turn (p : Prog unit) :
    (forall w, G w (settle (exec silent p w))) ->
    (forall w pd, In pd (pendings (exec silent p w)) ->
                  forall s, tame G (resume pd s)) ->
    tame G p.

(** Every waiting task of the pool is tame, however its call settles. *)
Definition pool_tame (G : World -> World -> Prop) (pl : list Pending) : Prop :=
  forall pd, In pd pl -> forall s, tame G (resume pd s).

(** A task is steady when each of its synchronous steps, taken alone, can
    only remove entries from the registry: the case of every task but
    [startClient], [init] and the [qr] and [ready] handlers. *)
Inductive steady : Prog unit -> Prop :=
| steady_ret (x : unit) : steady (Ret x)
| steady_throw (e : Err) : steady (Throw e)
| steady_sync {X : Type} (f : World -> X * World) (k : X -> Prog unit) :
    (forall w, shrinks w (f w).2) -> (forall x, steady (k x)) -> steady (Sync f k)
| steady_await (c : ExtCall) (k : Settled (answer c) -> Prog unit) :
    (forall s, steady (k s)) -> steady (Await c k)
| steady_spawn (t k : Prog unit) :
    steady t -> steady k -> steady (Spawn t k).

(** ** Expected outcomes *)

(** The world [startClient] leaves at its await when the tenant had no
    client and the constructor accepts its id. *)
Definition started (userId : string) (w : World) : World :=
  record (Issued (Initialize (List.length (objects w))))
    (with_clients (insert userId (List.length (objects w)))
       (alloc (mkClientObj userId (authDir w))
          (record (Emitted userId "status" (DStatus "INITIALIZING"))
             (record (Console LLog ("Starting client for " ++ userId) None) w)))).

(** The world [startClient] leaves when the constructor refuses the id of
    a tenant that had no client. *)
Definition refused (userId : string) (w : World) : World :=
  record (Emitted userId "status" (DStatus "INITIALIZING"))
    (record (Console LLog ("Starting client for " ++ userId) None) w).

(** Whether a request is the [qr] or [ready] event of a client of tenant [T]. *)
Definition pairing_event (w : World) (T : string) (r : Request) : bool :=
  match r with
  | ReqEvent c (EvQr _) | ReqEvent c EvReady =>
    match objects w !! c with
    | Some o => String.eqb (clientId o) T
    | None => false
    end
  | _ => false
  end.

(** The config store answering with one row and no error. *)
Definition row_found (url trigger : Js.text) : Settled Selected :=
  Resolved (mkSelected (Some (mkConfigRow url trigger)) None).

(** [orc], except that the config store answers with the given result. *)
Definition with_config (orc : Oracle) (answered : Settled Selected) : Oracle :=
  fun c =>
    match c return option (Settled (answer c)) with
    | ConfigSelect _ => Some answered
    | c' => orc c'
    end.

(** The warning a guarded teardown step leaves when its call rejects. *)
Definition warned (msg : string) (outcome : option (Settled unit)) : list Effect :=
  match outcome with
  | Some (Rejected e) => [Console LWarn msg (Some e)]
  | _ => []
  end.

(** The effects of removing the credential directory, if it is there. *)
Definition removal (userId : string) (dir : fspath) (present : bool)
           (outcome : option (Settled unit)) : list Effect :=
  if present then
    Issued (Remove dir) ::
    match outcome with
    | Some (Rejected e) => [Console LError "Could not delete session files" (Some e)]
    | _ => [Console LLog ("Session files deleted for " ++ userId) None]
    end
  else [].

(** A task waiting for [initialize] on behalf of tenant [T] that, however
    and whenever the call settles, finishes without throwing and leaves the
    manager's state alone; a rejection is logged and reported to T's room. *)
Definition guarded (T : string) (pd : Pending) : Prop :=
  forall (s : Settled (answer (pcall pd))) (w : World),
    let r := exec silent (resume pd s) w in
    status r = Finished (Normal tt) /\
    parked r = [] /\
    same_state w (final r) /\
    since w r =
      match s with
      | Resolved _ => []
      | Rejected e =>
        [Console LError ("Failed to initialize client for " ++ T) (Some e);
         Emitted T "error" (DError "Failed to initialize")]
      end.



(** ** Sample states and outcomes *)

(** An oracle under which every call resolves: the directory listing is
    empty, paths exist, the config store has no row. *)
Definition obliging : Oracle :=
  fun c =>
    Some (match c return Settled (answer c) with
          | Readdir _ => Resolved []
          | PathExists _ => Resolved true
          | ConfigSelect _ => Resolved (mkSelected None None)
          | Initialize _ | Logout _ | Destroy _ | EnsureDir _ | Remove _
          | AxiosPost _ _ => Resolved tt
          end).

(** An oracle under which [initialize] rejects and every other call resolves. *)
Definition failing_initialize : Oracle :=
  fun c =>
    match c return option (Settled (answer c)) with
    | Initialize _ => Some (Rejected "Failed to launch the browser process")
    | c' => obliging c'
    end.

(** An oracle under which [logout], [destroy] and the removal of the files
    all reject, while the directory exists. *)
Definition failing_teardown : Oracle :=
  fun c =>
    match c return option (Settled (answer c)) with
    | Logout _ => Some (Rejected "Session closed")
    | Destroy _ => Some (Rejected "Target closed")
    | Remove _ => Some (Rejected "EBUSY: resource busy or locked")
    | c' => obliging c'
    end.



(** A message sent from the tenant's own phone, and one received. *)
Definition sample_outbound : Message :=
  mkMessage "5491100000000@c.us" "5491122223333@c.us" "hola" "chat" 1700000000
            (Js.Text "Bruno") false "true_5491122223333@c.us_3EB0" true.
Definition sample_inbound : Message :=
  mkMessage "5491122223333@c.us" "5491100000000@c.us" "que tal" "chat" 1700000060
            Js.Undefined false "false_5491122223333@c.us_3EB1" false.

(** The loop after [/start] for tenant u1 on a fresh server. *)
Definition loop_started : Loop :=
  turn (startClient "u1" ;; Ret tt) [] (world (boot ".wwebjs_auth")).

(** A second [/start] for the same tenant while the first still waits. *)
Definition loop_started_twice : Loop :=
  turn (startClient "u1" ;; Ret tt) (pool loop_started) (world loop_started).

(** The loop after tenant u1's client has shown the challenge 2@abc. *)
Definition loop_pairing : Loop :=
  turn (handler "u1" (EvQr "2@abc")) (pool loop_started) (world loop_started).

(** ** Tasks whose every step keeps a relation *)

(** A task is orderly for [R] when each of its synchronous steps, each call
    it issues and each rejection it may end in leaves the world related by
    [R] to what it was. *)
Inductive orderly (R : World -> World -> Prop) : Prog unit -> Prop :=
| orderly_ret (x : unit) : orderly R (Ret x)
| orderly_throw (e : Err) :
    (forall w, R w (record (Unhandled e) w)) -> orderly R (Throw e)
| orderly_sync {X : Type} (f : World -> X * World) (k : X -> Prog unit) :
    (forall w, R w (f w).2) -> (forall x, orderly R (k x)) -> orderly R (Sync f k)
| orderly_await (c : ExtCall) (k : Settled (answer c) -> Prog unit) :
    (forall w, R w (record (Issued c) w)) -> (forall s, orderly R (k s)) ->
    orderly R (Await c k)
| orderly_spawn (t k : Prog unit) :
    orderly R t -> orderly R k -> orderly R (Spawn t k).

(** ** Tenant isolation *)

(** A push event is addressed to tenant [T]'s room; other effects have no
    addressee. *)
Definition addressed (T : string) (e : Effect) : Prop :=
  match e with
  | Emitted room _ _ => room = T
  | _ => True
  end.

(** From [w] to [w'] only tenant [T] was touched: the clients and pairing
    artifacts of every other tenant are as before, and every event pushed
    in between went to [T]'s room. *)
Record within (T : string) (w w' : World) : Prop := mkWithin {
  within_clients : forall U, U <> T -> clients w' !! U = clients w !! U;
  within_qr : forall U, U <> T -> lastQr w' !! U = lastQr w !! U;
  within_trace : exists suf, trace w' = (trace w ++ suf)%list /\ Forall (addressed T) suf
}.

(** The tenant on whose behalf a request is made, if any: the recovery
    sweep serves all of them. *)
Definition tenant_of (r : Request) (w : World) : option string :=
  match r with
  | ReqStart userId | ReqDelete userId => Some userId
  | ReqInit => None
  | ReqEvent c _ => clientId <$> objects w !! c
  end.

(** ** More expected outcomes *)

(** The effects of the guarded teardown of a client, if there is one. *)
Definition teardown (client : option Client) (orc : Oracle) : list Effect :=
  match client with
  | Some c =>
    ([Issued (Logout c)] ++ warned "Logout failed" (orc (Logout c)) ++
     [Issued (Destroy c)] ++ warned "Destroy failed" (orc (Destroy c)))%list
  | None => []
  end.

(** Whether an effect is a call on a client's connection. *)
Definition on_connection (e : Effect) : bool :=
  match e with
  | Issued (Initialize _) | Issued (Logout _) | Issued (Destroy _) => true
  | _ => false
  end.

(** The directory entries the sweep takes for sessions. *)
Definition session_entries (items : list string) : list string :=
  List.filter (Js.startsWith "session-") items.

(** Among them, those that name an identifier the client constructor
    accepts. *)
Definition accepted_entries (items : list string) : list string :=
  List.filter (fun item => valid_clientId (Js.replace "session-" "" item))
              (session_entries items).

(** What the sweep over [items] has done to the registry and the heap. *)
Record restored (items : list string) (w : World) (r : Out unit) : Prop := mkRestored {
  restored_dir : authDir (final r) = authDir w;
  restored_keeps : forall U c, clients w !! U = Some c -> clients (final r) !! U = Some c;
  restored_registry : forall U,
    is_Some (clients (final r) !! U) <->
    is_Some (clients w !! U) \/
    exists item, In item items /\ Js.startsWith "session-" item = true /\
                 Js.replace "session-" "" item = U /\ valid_clientId U = true;
  restored_heap : exists news,
    objects (final r) = (objects w ++ news)%list /\
    List.length news <= List.length (accepted_entries items) /\
    NoDup (clientId <$> news) /\
    Forall (fun o => dataPath o = authDir w /\
                     clients w !! clientId o = None /\
                     valid_clientId (clientId o) = true /\
                     exists item, In item items /\ Js.startsWith "session-" item = true /\
                                  Js.replace "session-" "" item = clientId o) news
}.

(** A listing with a stray file, the directory of a new tenant and that of
    tenant u1; and an oracle where the credential directory cannot be made. *)
Definition mixed_listing : Oracle :=
  fun c =>
    match c return option (Settled (answer c)) with
    | Readdir _ => Some (Resolved ["notes.txt"; "session-u7"; "session-u1"])
    | c' => obliging c'
    end.

Definition no_directory : Oracle :=
  fun c =>
    match c return option (Settled (answer c)) with
    | EnsureDir _ => Some (Rejected "EACCES: permission denied")
    | c' => obliging c'
    end.

(** The credential directories of the tenants u1 and session-x. *)
Definition named_listing : Oracle :=
  fun c =>
    match c return option (Settled (answer c)) with
    | Readdir _ => Some (Resolved (String.append "session-" <$> ["u1"; "session-x"]))
    | c' => obliging c'
    end.

(** The webhook deliveries among some effects: target and body, in order. *)
Fixpoint posts (l : list Effect) : list (string * Payload) :=
  match l with
  | [] => []
  | Issued (AxiosPost url body) :: l' => (url, body) :: posts l'
  | _ :: l' => posts l'
  end.

(** ** The record of effects, across the event loop *)

(** How many times [initialize] was called on client [c] among some effects. *)
Fixpoint initialized (c : Client) (l : list Effect) : nat :=
  match l with
  | [] => 0
  | Issued (Initialize c') :: l' => (if Nat.eqb c c' then 1 else 0) + initialized c l'
  | _ :: l' => initialized c l'
  end.

(** A turn that constructs no client, calls no [initialize] and leaves the
    pairing artifacts alone; only the registry and the trace may change. *)
Record plain (w w' : World) : Prop := mkPlain {
  plain_dir : authDir w' = authDir w;
  plain_heap : objects w' = objects w;
  plain_qr : lastQr w' = lastQr w;
  plain_trace : exists suf, trace w' = (trace w ++ suf)%list /\
                            forall c, initialized c suf = 0
}.

(** What every turn of the manager respects: the directory is fixed; the
    heap only grows, by clients that store their credentials under that
    directory and whose identifier the constructor has accepted;
    [initialize] is called once on each new client and on no
    other; and a pairing artifact that was not there before was pushed to
    its tenant in this turn. *)
Record lawful (w w' : World) : Prop := mkLawful {
  lawful_dir : authDir w' = authDir w;
  lawful_heap : exists news, objects w' = (objects w ++ news)%list /\
                             Forall (fun o => dataPath o = authDir w /\
                                              valid_clientId (clientId o) = true) news;
  lawful_trace : exists suf,
    trace w' = (trace w ++ suf)%list /\
    (forall c, initialized c suf =
               if decide (List.length (objects w) <= c < List.length (objects w'))
               then 1 else 0) /\
    (forall T q, lastQr w' !! T = Some q ->
                 lastQr w !! T = Some q \/ In (Emitted T "qr" (DQr q)) suf)
}.

(** What the trace says about the state, at any time. *)
Record audited (w : World) : Prop := mkAudited {
  audited_init : forall c, initialized c (trace w) =
                           if decide (c < List.length (objects w)) then 1 else 0;
  audited_qr : forall T q, lastQr w !! T = Some q -> In (Emitted T "qr" (DQr q)) (trace w);
  audited_path : Forall (fun o => dataPath o = authDir w /\
                                 valid_clientId (clientId o) = true) (objects w)
}.

(** ** Requests and the dashboard *)

(** A string with no space in it. *)
Fixpoint spaceless (s : string) : bool :=
  match s with
  | EmptyString => true
  | String c s' => negb (Ascii.eqb c space) && spaceless s'
  end.

(** The auth service vouches for [token] as user [u]. *)
Definition vouched (getUser : string -> UserAnswer) (token u : string) : Prop :=
  ua_user (getUser token) = Some u /\ ua_error (getUser token) = None.

(** The row found by an API key belongs to [u]. *)
Definition key_of (lookup : string -> KeyAnswer) (key u : string) : Prop :=
  ka_user_id (lookup key) = Some u /\ ka_error (lookup key) = None.

(** The dashboard after a run of socket events. *)
Definition run_socket (evs : list SocketEvent) (d : Dashboard) : Dashboard :=
  fold_left (fun d ev => on_socket ev d) evs d.

(** A pairing code is on display only while the status is CONNECTING. *)
Definition coherent (d : Dashboard) : Prop :=
  d_qr d <> None -> d_status d = CONNECTING.

(** What the dashboard of tenant [T] makes of a run [r] started in [w]. *)
Definition seen {A : Type} (T : string) (w : World) (r : Out A) (d : Dashboard) : Dashboard :=
  watch T (since w r) d.

(** No event at all is pushed to room [T]. *)
Definition unheard (T : string) (l : list Effect) : Prop :=
  forall event data, ~ In (Emitted T event data) l.

(** * Properties *)

(** ** Relations between the two worlds of a turn *)

Lemma same_state_grows (w w' : World) : same_state w w' -> grows w w'.
Proof.
  intros (Hc & Hq & _ & Ho). split.
  - intros HI u c. unfold owned. rewrite Hc, Ho. apply HI.
  - intros u c. by rewrite Hc.
  - intros c o. by rewrite Ho.
  - intros c o. rewrite Ho. congruence.
  - done.
Qed.

Lemma grows_discreet (w w' : World) : grows w w' -> discreet w w'.
Proof.
  intros [HI Hc Ho Hf Hq]. split; [split|]; auto.
Qed.

Lemma same_state_discreet (w w' : World) : same_state w w' -> discreet w w'.
Proof. intros H. by apply grows_discreet, same_state_grows. Qed.

Lemma same_state_refl (w : World) : same_state w w.
Proof. by repeat split. Qed.

(** Registering a newly constructed client for a tenant without one. *)
Lemma grows_register (w w' : World) (u : string) :
  grows w w' ->
  clients w' !! u = None ->
  grows w (with_clients (insert u (List.length (objects w')))
             (alloc (mkClientObj u (authDir w')) w')).
Proof.
  intros [HI Hc Ho Hf Hq] Hu.
  assert (Hu0 : clients w !! u = None).
  { destruct (clients w !! u) as [c|] eqn:E; [|done]. apply Hc in E. congruence. }
  split; cbn.
  - intros HI0 v c. unfold owned; cbn. rewrite lookup_insert.
    case_decide as Hv.
    + intros [= <-]. subst v. exists (mkClientObj u (authDir w')). split; [|done].
      rewrite lookup_app_r by lia. by rewrite Nat.sub_diag.
    + intros Hvc. destruct (HI HI0 v c Hvc) as (o & Hoc & Hid).
      exists o. split; [|done]. by apply lookup_app_l_Some.
  - intros v c Hvc. rewrite lookup_insert. case_decide; [congruence|]. by apply Hc.
  - intros c o Hco. apply lookup_app_l_Some. by apply Ho.
  - intros c o Hnone Hsome.
    destruct (decide (c < List.length (objects w'))) as [Hlt|Hge].
    + rewrite lookup_app_l in Hsome by done.
      destruct (Hf c o Hnone Hsome) as [H1 H2]. split; [done|].
      rewrite lookup_insert_ne; [done|]. intros ->. congruence.
    + rewrite lookup_app_r in Hsome by lia.
      destruct (c - List.length (objects w')) as [|n] eqn:En; [|by destruct n].
      injection Hsome as <-. cbn. split; [done|].
      rewrite lookup_insert_eq. f_equal. lia.
  - done.
Qed.

Lemma grows_refl (w : World) : grows w w.
Proof. apply same_state_grows, same_state_refl. Qed.

Lemma grows_record (e : Effect) (w w' : World) : grows w w' -> grows w (record e w').
Proof. intros [HI Hc Ho Hf Hq]. by split. Qed.

Lemma shrinks_refl (w : World) : shrinks w w.
Proof. by split. Qed.

Lemma shrinks_trans (w1 w2 w3 : World) : shrinks w1 w2 -> shrinks w2 w3 -> shrinks w1 w3.
Proof.
  intros [Hc1 Hq1 Hd1 Ho1] [Hc2 Hq2 Hd2 Ho2]. split; [auto | congruence..].
Qed.

Lemma shrinks_record (e : Effect) (w w' : World) : shrinks w w' -> shrinks w (record e w').
Proof. intros [Hc Hq Hd Ho]. by split. Qed.

Lemma shrinks_delete (u : string) (w : World) : shrinks w (with_clients (delete u) w).
Proof.
  split; cbn; try done. intros v c. rewrite lookup_delete. by case_decide.
Qed.

Lemma shrinks_discreet (w w' : World) : shrinks w w' -> discreet w w'.
Proof.
  intros [Hc Hq Hd Ho]. split; [split|done].
  - intros HI u c Huc. unfold owned. rewrite Ho. by apply HI, Hc.
  - intros u c Huc. destruct (clients w' !! u) as [c'|] eqn:E; [left|by right].
    apply Hc in E. congruence.
  - intros c o. by rewrite Ho.
  - intros c o. rewrite Ho. congruence.
Qed.

(** A turn that leaves the registry and the heap alone is careful. *)
Lemma careful_same_registry (w w' : World) :
  clients w' = clients w -> objects w' = objects w -> careful w w'.
Proof.
  intros Hc Ho. split.
  - intros HI u c. unfold owned. rewrite Hc, Ho. apply HI.
  - intros u c. rewrite Hc. by left.
  - intros c o. by rewrite Ho.
  - intros c o. rewrite Ho. congruence.
Qed.

(** ** Tame tasks *)

Lemma tame_inv (G : World -> World -> Prop) (p : Prog unit) :
  tame G p ->
  (forall w, G w (settle (exec silent p w))) /\
  (forall w pd, In pd (pendings (exec silent p w)) -> forall s, tame G (resume pd s)).
Proof. intros [q H1 H2]. by split. Qed.

Lemma pool_lookup_tame (G : World -> World -> Prop) (pl : list Pending) (i : nat)
      (c : ExtCall) (k : Settled (answer c) -> Prog unit) (s : Settled (answer c)) :
  pool_tame G pl -> pl !! i = Some (Parked c k) -> tame G (k s).
Proof.
  intros Hpool Hi. apply (Hpool (Parked c k)).
  apply list_elem_of_In. by eapply list_elem_of_lookup_2.
Qed.

(** ** Steady tasks are tame *)

Section Steady.

Variable G : World -> World -> Prop.
Hypothesis shrinks_G : forall w w', shrinks w w' -> G w w'.

Lemma steady_turn (p : Prog unit) :
  steady p ->
  forall w0 w, shrinks w0 w ->
    shrinks w0 (settle (exec silent p w)) /\
    forall pd, In pd (pendings (exec silent p w)) -> forall s, tame G (resume pd s).
Proof.
  induction 1 as [x | e | X f k Hf Hk IH | c k Hk IH | t k Ht IHt Hk IHk];
    intros w0 w Hw.
  - split; [done | intros pd []].
  - split; [by apply shrinks_record | intros pd []].
  - cbn [exec]. apply IH. eapply shrinks_trans; [exact Hw | apply Hf].
  - cbn. split; [by apply shrinks_record|].
    intros pd [<- | []] s. cbn.
    constructor.
    + intros w1. apply shrinks_G. by apply (IH s w1 w1), shrinks_refl.
    + intros w1. by apply (IH s w1 w1), shrinks_refl.
  - cbn [exec].
    destruct (IHt w0 w Hw) as [Ht1 Ht2].
    destruct (IHk w0 (settle (exec silent t w)) Ht1) as [Hk1 Hk2].
    split; [exact Hk1|].
    intros pd. unfold pendings in *. cbn [parked status waiting].
    rewrite !in_app_iff. intros [[Hin | [Hin | Hin]] | Hin].
    + apply Ht2. rewrite in_app_iff. by left.
    + apply Ht2. rewrite in_app_iff. by right.
    + apply Hk2. rewrite in_app_iff. by left.
    + apply Hk2. rewrite in_app_iff. by right.
Qed.

Lemma steady_tame (p : Prog unit) : steady p -> tame G p.
Proof.
  intros Hp. constructor.
  - intros w. apply shrinks_G. by apply (steady_turn p Hp w w), shrinks_refl.
  - intros w. by apply (steady_turn p Hp w w), shrinks_refl.
Qed.

End Steady.

Create HintDb turns.
#[local] Hint Resolve shrinks_refl shrinks_record shrinks_delete : turns.

(** Walks down a straight-line task, one step at a time. *)
Ltac steady_auto :=
  repeat first
    [ apply steady_ret | apply steady_throw
    | apply steady_sync; [intros ?; cbn; auto with turns | intros ?]
    | apply steady_await; intros [?|?]
    | progress cbn ].

Lemma steady_dispatchWebhook (userId : string) (message : Message) :
  steady (dispatchWebhook userId message).
Proof.
  unfold dispatchWebhook. cbn. apply steady_await. intros [sel|e]; cbn.
  - destruct (sel_error sel), (sel_data sel) as [row|]; cbn; try apply steady_ret.
    destruct (Js.truthy (webhook_url row)); cbn; try apply steady_ret.
    repeat match goal with |- context [if ?b then _ else _] => destruct b end;
      steady_auto.
  - steady_auto.
Qed.

Lemma steady_deleteSession (userId : string) : steady (deleteSession userId).
Proof.
  unfold deleteSession. cbn. apply steady_sync; [intros w; apply shrinks_refl|].
  intros [c|]; cbn; steady_auto.
  all: repeat match goal with |- context [if ?b then _ else _] => destruct b end; steady_auto.
Qed.

(** ** The turns of [startClient] and of [init] *)

Lemma grows_started (userId : string) (w : World) :
  clients w !! userId = None -> grows w (started userId w).
Proof.
  intros H. unfold started. apply grows_record.
  apply (grows_register w (record _ (record _ w)) userId); [|done].
  by apply same_state_grows.
Qed.

Lemma grows_trans (w1 w2 w3 : World) : grows w1 w2 -> grows w2 w3 -> grows w1 w3.
Proof.
  intros [HI1 Hc1 Ho1 Hf1 Hq1] [HI2 Hc2 Ho2 Hf2 Hq2]. split; [auto..| |congruence].
  intros c o Hnone Hsome.
  destruct (objects w2 !! c) as [o'|] eqn:E.
  - assert (o' = o) as -> by (apply Ho2 in E; congruence).
    destruct (Hf1 c o Hnone E) as [Ha Hb]. auto.
  - destruct (Hf2 c o E Hsome) as [Ha Hb]. split; [|done].
    destruct (clients w1 !! clientId o) as [c'|] eqn:E'; [|done].
    apply Hc1 in E'. congruence.
Qed.

(** The first turn of a detached [startClient]: either the tenant has a
    client and only a status event is emitted, or one is constructed and
    filed and the task waits for [initialize], or the constructor refuses
    the id and the task ends there; what it does afterwards is steady. *)
Lemma startClient_first_turn (userId : string) (w : World) :
  let o := exec silent (startClient userId ;; Ret tt) w in
  grows w (settle o) /\
  forall pd, In pd (pendings o) -> forall s, steady (resume pd s).
Proof.
  cbn. destruct (clients w !! userId) as [c|] eqn:E; cbn.
  - split; [|intros pd []].
    by apply same_state_grows.
  - unfold new_Client. destruct (valid_clientId userId); cbn.
    + split.
      * by apply grows_started.
      * intros pd [<- | []] [[]|e]; cbn; steady_auto.
    + split; [|intros pd []].
      do 3 apply grows_record. apply grows_refl.
Qed.

Lemma tame_startClient (userId : string) : tame discreet (startClient userId ;; Ret tt).
Proof.
  constructor; intros w.
  - apply grows_discreet, startClient_first_turn.
  - intros pd Hin s. apply steady_tame; [apply shrinks_discreet|].
    by apply (startClient_first_turn userId w).
Qed.

(** The loop of [init], inside its [try]: one turn, in which the registry
    only grows. *)
Lemma restore_turn (h : Err -> Prog unit) (items : list string) :
  forall w0 w, grows w0 w ->
    let o := exec silent (try_catch (restore items) h) w in
    grows w0 (settle o) /\
    forall pd, In pd (pendings o) -> forall s, tame discreet (resume pd s).
Proof.
  induction items as [|item rest IH]; intros w0 w Hw.
  - cbn. split; [done | intros pd []].
  - cbn -[startClient]. destruct (Js.startsWith "session-" item); cbn -[startClient].
    + set (userId := Js.replace "session-" "" item).
      set (w1 := record _ w).
      destruct (startClient_first_turn userId w1) as [Hg Hp]. cbn zeta in Hg, Hp.
      assert (Hw1 : grows w0 (settle (exec silent (startClient userId ;; Ret tt) w1))).
      { eapply grows_trans; [|exact Hg]. by apply grows_record. }
      destruct (IH w0 _ Hw1) as [Hg2 Hp2]. cbn zeta in Hg2, Hp2.
      split; [exact Hg2|].
      intros pd. unfold pendings in *. cbn [parked status waiting].
      rewrite !in_app_iff. intros [[Hin | [Hin | Hin]] | Hin] s.
      * apply steady_tame; [apply shrinks_discreet|]. apply Hp. rewrite in_app_iff. by left.
      * apply steady_tame; [apply shrinks_discreet|]. apply Hp. rewrite in_app_iff. by right.
      * apply Hp2. rewrite in_app_iff. by left.
      * apply Hp2. rewrite in_app_iff. by right.
    + by apply IH.
Qed.

Lemma tame_init : tame discreet init.
Proof.
  constructor; intros w; cbn.
  - by apply same_state_discreet.
  - intros pd [<- | []] [[]|e]; cbn.
    + constructor; intros w1; cbn.
      * by apply same_state_discreet.
      * intros pd [<- | []] [items|e]; cbn.
        -- constructor; intros w2.
           ++ apply grows_discreet. apply (restore_turn _ items w2 w2), grows_refl.
           ++ apply (restore_turn _ items w2 w2), grows_refl.
        -- apply steady_tame; [apply shrinks_discreet|]. steady_auto.
    + apply steady_tame; [apply shrinks_discreet|]. steady_auto.
Qed.

(** ** The tasks the loop can start *)

(** Every task the loop can start, other than a [qr] or [ready] handler,
    is tame: none of its turns touches a pairing artifact. *)
Lemma entry_tame (r : Request) (w0 : World) (p : Prog unit) :
  entry r w0 = Some p ->
  match r with
  | ReqEvent _ (EvQr _) | ReqEvent _ EvReady => False
  | _ => True
  end ->
  tame discreet p.
Proof.
  destruct r as [u | u | | c ev]; cbn.
  - intros [= <-] _. apply tame_startClient.
  - intros [= <-] _. apply steady_tame, steady_deleteSession. apply shrinks_discreet.
  - intros [= <-] _. apply tame_init.
  - destruct (objects w0 !! c) as [o|]; [|done]. intros [= <-].
    destruct ev as [qr | | msg | message | reason]; intros Hr.
    + destruct Hr.
    + destruct Hr.
    + apply steady_tame; [apply shrinks_discreet|]. steady_auto.
    + apply steady_tame, steady_dispatchWebhook. apply shrinks_discreet.
    + apply steady_tame; [apply shrinks_discreet|]. steady_auto.
Qed.

(** Every task the loop can start is careful in its first turn and tame
    afterwards. *)
Lemma entry_careful (r : Request) (w0 : World) (p : Prog unit) :
  entry r w0 = Some p ->
  (forall w, careful w (settle (exec silent p w))) /\
  (forall w pd, In pd (pendings (exec silent p w)) -> forall s, tame discreet (resume pd s)).
Proof.
  intros Hentry.
  assert (Ht : tame discreet p ->
    (forall w, careful w (settle (exec silent p w))) /\
    (forall w pd, In pd (pendings (exec silent p w)) -> forall s, tame discreet (resume pd s))).
  { intros H. destruct (tame_inv _ _ H) as [H1 H2]. split; [intros w; apply H1 | exact H2]. }
  destruct r as [u | u | | c [qr | | msg | message | reason]];
    try (apply Ht; exact (entry_tame _ _ _ Hentry I)).
  - cbn in Hentry. destruct (objects w0 !! c) as [o|]; [|discriminate Hentry].
    injection Hentry as <-.
    split; [intros w; by apply careful_same_registry | intros w pd []].
  - cbn in Hentry. destruct (objects w0 !! c) as [o|]; [|discriminate Hentry].
    injection Hentry as <-.
    split; [intros w; by apply careful_same_registry | intros w pd []].
Qed.

(** ** Invariants of the event loop *)

Lemma pool_tame_step (l l' : Loop) :
  step l l' -> pool_tame discreet (pool l) -> pool_tame discreet (pool l').
Proof.
  intros Hstep Hpool. destruct Hstep as [l r p Hentry | l i c k s Hi]; cbn.
  - intros pd. rewrite in_app_iff. intros [Hin | Hin]; [by apply Hpool|].
    by apply (proj2 (entry_careful r (world l) p Hentry) (world l)).
  - assert (Hk : tame discreet (k s)).
    { apply (Hpool (Parked c k)). apply list_elem_of_In. by eapply list_elem_of_lookup_2. }
    intros pd. rewrite in_app_iff. intros [Hin | Hin].
    + apply Hpool. apply list_elem_of_In. apply list_elem_of_In in Hin.
      by eapply list_elem_of_delete_inv.
    + destruct Hk as [q H1 H2]. by apply (H2 (world l)).
Qed.

Lemma careful_step (l l' : Loop) :
  step l l' -> pool_tame discreet (pool l) -> careful (world l) (world l').
Proof.
  intros Hstep Hpool. destruct Hstep as [l r p Hentry | l i c k s Hi]; cbn.
  - apply (proj1 (entry_careful r (world l) p Hentry)).
  - assert (Hk : tame discreet (k s)).
    { apply (Hpool (Parked c k)). apply list_elem_of_In. by eapply list_elem_of_lookup_2. }
    destruct Hk as [q H1 H2]. apply H1.
Qed.

Lemma reachable_sound (l : Loop) :
  reachable l -> Inv (world l) /\ pool_tame discreet (pool l).
Proof.
  intros [dir Hrtc]. revert l Hrtc. apply rtc_ind_r.
  - split; [|intros pd []]. intros u c. cbn. by rewrite lookup_empty.
  - intros l l' _ Hstep [HI Hp]. split.
    + by apply (keeps_inv _ _ (careful_step _ _ Hstep Hp)).
    + by apply (pool_tame_step _ _ Hstep).
Qed.

(** ** The registry holds one client per tenant *)

(** C1. In every state the event loop can reach, under every interleaving
    of turns: the registry files at most one client under a tenant, and it
    is a client constructed for that tenant; a turn of any task leaves the
    client of a tenant that has one in place (or removes it) and constructs
    no client for that tenant; and a client constructed in a turn is for a
    tenant that had none when the turn began and is the one filed under
    that tenant when the turn ends.  So no interleaving files two clients
    for one tenant. *)
Theorem registry_one_client_per_tenant (l l' : Loop) :
  reachable l -> step l l' ->
  (forall u c1 c2, getClient u (world l) = Some c1 ->
                   getClient u (world l) = Some c2 -> c1 = c2) /\
  (forall u c, getClient u (world l) = Some c -> owned (world l) u c) /\
  (forall u c, getClient u (world l) = Some c ->
     (getClient u (world l') = Some c \/ getClient u (world l') = None) /\
     (forall c', owned (world l') u c' -> owned (world l) u c')) /\
  (forall c' o, objects (world l) !! c' = None -> objects (world l') !! c' = Some o ->
     getClient (clientId o) (world l) = None /\
     getClient (clientId o) (world l') = Some c').
Proof.
  intros Hreach Hstep. unfold getClient.
  destruct (reachable_sound l Hreach) as [HI Hpool].
  destruct (careful_step l l' Hstep Hpool) as [_ Hkeep Hheap Hfresh].
  split; [|split; [|split]].
  - congruence.
  - exact HI.
  - intros u c Huc. split; [by apply Hkeep|].
    intros c' (o & Hco & Hid).
    destruct (objects (world l) !! c') as [o'|] eqn:E.
    + exists o'. split; [done|]. apply Hheap in E. congruence.
    + destruct (Hfresh c' o E Hco) as [Hnone _]. congruence.
  - exact Hfresh.
Qed.

Lemma registry_one_client_per_tenant_witness :
  reachable loop_started /\ step loop_started loop_started_twice /\
  getClient "u1" (world loop_started_twice) = Some 0 /\
  List.length (objects (world loop_started_twice)) = 1.
Proof.
  assert (Hreach : reachable loop_started).
  { exists ".wwebjs_auth". apply rtc_once.
    by apply (step_request (boot ".wwebjs_auth") (ReqStart "u1")). }
  assert (Hstep : step loop_started loop_started_twice).
  { by apply (step_request loop_started (ReqStart "u1")). }
  split; [exact Hreach | split; [exact Hstep|]].
  destruct (registry_one_client_per_tenant _ _ Hreach Hstep) as (_ & _ & Hkeep & _).
  destruct (Hkeep "u1" 0 eq_refl) as [[H | H] _]; [|discriminate H].
  split; [exact H | reflexivity].
Defined.

(** ** The pairing artifact *)

(** C4 (as the code has it). For every tenant T, in every reachable state
    of the event loop: the turn of a [qr] event of a client of T sets the
    pairing artifact of T to the new challenge; the turn of a [ready] event
    of a client of T clears it; every other turn leaves it as it was, be
    it another request (a start, a session deletion, the recovery sweep, a
    [disconnected], [auth_failure] or [message] event, or any event of
    another tenant's client) or the resumption of any waiting task. *)
Theorem pairing_artifact_set_on_qr_cleared_on_ready (l : Loop) (T : string) :
  reachable l ->
  (forall c o qr, objects (world l) !! c = Some o -> clientId o = T ->
     exists p, entry (ReqEvent c (EvQr qr)) (world l) = Some p /\
               getQr T (world (turn p (pool l) (world l))) = Some qr) /\
  (forall c o, objects (world l) !! c = Some o -> clientId o = T ->
     exists p, entry (ReqEvent c EvReady) (world l) = Some p /\
               getQr T (world (turn p (pool l) (world l))) = None) /\
  (forall r p, entry r (world l) = Some p -> pairing_event (world l) T r = false ->
     getQr T (world (turn p (pool l) (world l))) = getQr T (world l)) /\
  (forall i c k s, pool l !! i = Some (Parked c k) ->
     getQr T (world (turn (k s) (delete i (pool l)) (world l))) = getQr T (world l)).
Proof.
  intros Hreach. destruct (reachable_sound l Hreach) as [_ Hpool].
  unfold getQr. split; [|split; [|split]].
  - intros c o qr Hco <-. cbn. rewrite Hco. eexists. split; [reflexivity|].
    cbn. apply lookup_insert_eq.
  - intros c o Hco <-. cbn. rewrite Hco. eexists. split; [reflexivity|].
    cbn. apply lookup_delete_eq.
  - intros r p Hentry Hev.
    assert (Hq : forall q, tame discreet q ->
                 lastQr (world (turn q (pool l) (world l))) = lastQr (world l)).
    { intros q Hq. apply (proj1 (tame_inv _ _ Hq) (world l)). }
    destruct r as [u | u | | c [qr | | msg | message | reason]];
      try (rewrite (Hq p); [reflexivity | exact (entry_tame _ _ _ Hentry I)]).
    + cbn in Hentry, Hev. destruct (objects (world l) !! c) as [o|]; [|done].
      injection Hentry as <-. cbn. apply lookup_insert_ne.
      by apply String.eqb_neq.
    + cbn in Hentry, Hev. destruct (objects (world l) !! c) as [o|]; [|done].
      injection Hentry as <-. cbn. apply lookup_delete_ne.
      by apply String.eqb_neq.
  - intros i c k s Hi.
    pose proof (pool_lookup_tame _ _ _ _ _ s Hpool Hi) as Hk.
    cbn. f_equal. apply (proj2 (proj1 (tame_inv _ _ Hk) (world l))).
Qed.

Lemma pairing_artifact_set_on_qr_cleared_on_ready_witness :
  reachable loop_started /\
  exists p, entry (ReqEvent 0 (EvQr "2@abc")) (world loop_started) = Some p /\
            getQr "u1" (world (turn p (pool loop_started) (world loop_started))) = Some "2@abc".
Proof.
  assert (Hreach : reachable loop_started).
  { exists ".wwebjs_auth". apply rtc_once.
    by apply (step_request (boot ".wwebjs_auth") (ReqStart "u1")). }
  split; [exact Hreach|].
  apply (proj1 (pairing_artifact_set_on_qr_cleared_on_ready loop_started "u1" Hreach)
           0 (mkClientObj "u1" ".wwebjs_auth") "2@abc"); reflexivity.
Defined.

(** C4, as stated, fails: the pairing artifact is not cleared when the
    tenant's connection is removed.  After a disconnection, and likewise
    after a session deletion, tenant u1 has no client in the registry but
    [getQr] still answers the old challenge. *)
Lemma pairing_artifact_survives_removal :
  (let w := world (turn (handler "u1" (EvDisconnected "LOGOUT")) (pool loop_pairing)
                        (world loop_pairing)) in
   getClient "u1" w = None /\ getQr "u1" w = Some "2@abc") /\
  (let w := final (exec obliging (deleteSession "u1") (world loop_pairing)) in
   getClient "u1" w = None /\ getQr "u1" w = Some "2@abc").
Proof. split; split; reflexivity. Qed.

(** ** [startClient] *)

(** C2. If the registry has a client for tenant T, whatever that client is
    doing, [startClient T] finishes in the turn it is called in, whatever
    the outside would answer: it returns that client, emits
    [status {status: "CONNECTED"}] to T's room and does nothing else; no
    client is constructed, nothing is filed, no call is issued. *)
Theorem startClient_existing_is_idempotent (orc : Oracle) (w : World) (T : string) (c : Client) :
  getClient T w = Some c ->
  let r := exec orc (startClient T) w in
  status r = Finished (Normal (Some c)) /\
  parked r = [] /\
  trace (final r) = (trace w ++ [Emitted T "status" (DStatus "CONNECTED")])%list /\
  objects (final r) = objects w /\
  clients (final r) = clients w /\
  lastQr (final r) = lastQr w /\
  getClient T (final r) = Some c.
Proof.
  unfold getClient. intros H. cbn. rewrite H. cbn. by rewrite H.
Qed.

Lemma startClient_existing_is_idempotent_witness :
  getClient "u1" (world loop_started) = Some 0 /\
  status (exec silent (startClient "u1") (world loop_started)) = Finished (Normal (Some 0)).
Proof.
  split; [reflexivity|].
  apply (startClient_existing_is_idempotent silent (world loop_started) "u1" 0).
  reflexivity.
Defined.

(** What [startClient T] leaves behind when T had no client, up to the
    outcome of [initialize]. *)
Lemma startClient_absent (orc : Oracle) (w : World) (T : string) :
  clients w !! T = None ->
  valid_clientId T = true ->
  let c := List.length (objects w) in
  let r := exec orc (startClient T) w in
  parked r = [] /\
  clients (final r) = <[T := c]> (clients w) /\
  objects (final r) = (objects w ++ [mkClientObj T (authDir w)])%list /\
  lastQr (final r) = lastQr w /\
  match orc (Initialize c) with
  | None => final r = started T w /\ exists k, status r = Blocked (Initialize c) k
  | Some (Resolved _) => final r = started T w /\ status r = Finished (Normal (Some c))
  | Some (Rejected e) =>
    final r = record (Emitted T "error" (DError "Failed to initialize"))
                (record (Console LError ("Failed to initialize client for " ++ T) (Some e))
                   (started T w)) /\
    status r = Finished (Normal (Some c))
  end.
Proof.
  intros H Hv. cbn. rewrite H. cbn. unfold new_Client. rewrite Hv. cbn.
  destruct (orc (Initialize (List.length (objects w)))) as [[[]|e]|]; cbn; eauto 10.
Qed.

(** What [startClient T] does when T had no client and the constructor
    refuses the id: it has logged and pushed INITIALIZING, and it rejects
    with nothing constructed or filed. *)
Lemma startClient_refused (orc : Oracle) (w : World) (T : string) :
  clients w !! T = None ->
  valid_clientId T = false ->
  exec orc (startClient T) w = mkOut (refused T w) [] (Finished (Thrown invalid_clientId)) /\
  exec orc (startClient T ;; Ret tt) w =
  mkOut (refused T w) [] (Finished (Thrown invalid_clientId)).
Proof.
  intros H Hv. cbn. rewrite H. cbn. unfold new_Client. by rewrite Hv.
Qed.

(** C3. When a client constructed for tenant T signals [disconnected], for
    whatever reason, the handler finishes in that turn, emits
    [disconnected {reason}] to T's room and removes T from the registry:
    [getClient T] is absent right after.  A [startClient T] that follows
    constructs a client that did not exist before, different from the one
    that was registered, and files it under T: T is the id of a client
    that was constructed, so the constructor accepts it (in every
    reachable state, by [constructed_ids_are_accepted]). *)
Theorem disconnected_removes_client (orc : Oracle) (w : World) (c : Client) (o : ClientObj)
        (reason : string) :
  objects w !! c = Some o ->
  let T := clientId o in
  let r := exec silent (handler T (EvDisconnected reason)) w in
  status r = Finished (Normal tt) /\
  parked r = [] /\
  trace (final r) =
    (trace w ++ [Console LLog ("Client " ++ T ++ " disconnected: " ++ reason ++ " ") None;
                 Emitted T "disconnected" (DReason reason)])%list /\
  getClient T (final r) = None /\
  (valid_clientId T = true ->
   let r' := exec orc (startClient T) (final r) in
   let c' := List.length (objects w) in
   objects (final r) !! c' = None /\
   objects (final r') !! c' = Some (mkClientObj T (authDir w)) /\
   getClient T (final r') = Some c' /\
   c' <> c).
Proof.
  intros Hc T. cbn -[startClient].
  set (w1 := with_clients (delete T) _).
  assert (Hnone : clients w1 !! T = None) by apply lookup_delete_eq.
  split_and!; try done.
  - by rewrite <- app_assoc.
  - intros Hv.
    destruct (startClient_absent orc w1 T Hnone Hv) as (_ & Hcl & Ho & _).
    cbn zeta in Hcl, Ho. split_and!.
    + apply lookup_ge_None. cbn. lia.
    + rewrite Ho. cbn. rewrite lookup_app_r by lia. by rewrite Nat.sub_diag.
    + unfold getClient. rewrite Hcl. apply lookup_insert_eq.
    + apply lookup_lt_Some in Hc. lia.
Qed.

Lemma disconnected_removes_client_witness :
  objects (world loop_started) !! 0 = Some (mkClientObj "u1" ".wwebjs_auth") /\
  valid_clientId "u1" = true /\
  getClient "u1" (final (exec silent (handler "u1" (EvDisconnected "NAVIGATION"))
                              (world loop_started))) = None /\
  getClient "u1" (final (exec silent (startClient "u1")
                           (final (exec silent (handler "u1" (EvDisconnected "NAVIGATION"))
                                        (world loop_started))))) = Some 1.
Proof.
  split; [reflexivity|]. split; [reflexivity|].
  destruct (disconnected_removes_client silent (world loop_started) 0
              (mkClientObj "u1" ".wwebjs_auth") "NAVIGATION" eq_refl)
    as (_ & _ & _ & Hgone & Hnext).
  split; [exact Hgone|].
  exact (proj1 (proj2 (proj2 (Hnext eq_refl)))).
Defined.

(** C10. If [initialize] rejects during [startClient T] for a tenant
    without a client ([initialize] is reached, so the constructor has
    accepted T), the call still returns the client it constructed and
    does not throw; the client stays in the registry; the failure is
    logged and [error {message: "Failed to initialize"}] is emitted to T's
    room.  A later [startClient T] then finds that client: it emits
    [status {status: "CONNECTED"}], returns the same client, and issues no
    call, so [initialize] is not tried again. *)
Theorem startClient_initialize_failure (orc orc' : Oracle) (w : World) (T : string) (e : Err) :
  getClient T w = None ->
  valid_clientId T = true ->
  orc (Initialize (List.length (objects w))) = Some (Rejected e) ->
  let c := List.length (objects w) in
  let r := exec orc (startClient T) w in
  status r = Finished (Normal (Some c)) /\
  getClient T (final r) = Some c /\
  trace (final r) =
    (trace w ++ [Console LLog ("Starting client for " ++ T) None;
                 Emitted T "status" (DStatus "INITIALIZING");
                 Issued (Initialize c);
                 Console LError ("Failed to initialize client for " ++ T) (Some e);
                 Emitted T "error" (DError "Failed to initialize")])%list /\
  let r' := exec orc' (startClient T) (final r) in
  status r' = Finished (Normal (Some c)) /\
  parked r' = [] /\
  trace (final r') = (trace (final r) ++ [Emitted T "status" (DStatus "CONNECTED")])%list /\
  objects (final r') = objects (final r) /\
  clients (final r') = clients (final r).
Proof.
  unfold getClient. intros Hnone Hv Horc. cbn zeta.
  destruct (startClient_absent orc w T Hnone Hv) as (_ & Hcl & _ & _ & Hout).
  cbn zeta in Hcl, Hout. rewrite Horc in Hout. destruct Hout as [Hfinal Hstatus].
  assert (Hreg : clients (final (exec orc (startClient T) w)) !! T
                 = Some (List.length (objects w))).
  { rewrite Hcl. apply lookup_insert_eq. }
  split; [exact Hstatus|]. split; [exact Hreg|]. split.
  - rewrite Hfinal. cbn. by rewrite <- !app_assoc.
  - destruct (startClient_existing_is_idempotent orc' _ T _ Hreg)
      as (H1 & H2 & H3 & H4 & H5 & _).
    by repeat split.
Qed.

Lemma startClient_initialize_failure_witness :
  getClient "u1" (world (boot ".wwebjs_auth")) = None /\
  valid_clientId "u1" = true /\
  failing_initialize (Initialize 0) = Some (Rejected "Failed to launch the browser process") /\
  getClient "u1" (final (exec failing_initialize (startClient "u1") (world (boot ".wwebjs_auth"))))
  = Some 0.
Proof.
  split; [reflexivity|]. split; [reflexivity|]. split; [reflexivity|].
  apply (startClient_initialize_failure failing_initialize silent
           (world (boot ".wwebjs_auth")) "u1" "Failed to launch the browser process");
    reflexivity.
Defined.

(** ** [dispatchWebhook] *)

(** The run of [dispatchWebhook] once the store has answered with a row
    that has a webhook URL. *)
Lemma dispatch_with_row (orc : Oracle) (w : World) (u : string) (m : Message)
      (url : string) (trigger : Js.text) :
  url <> "" ->
  orc (ConfigSelect u) = Some (row_found (Js.Text url) trigger) ->
  let t := Js.or trigger "incoming" in
  exec orc (dispatchWebhook u m) w =
  if (String.eqb t "incoming" && m_fromMe m) || (String.eqb t "outgoing" && negb (m_fromMe m))
  then mkOut (record (Issued (ConfigSelect u)) w) [] (Finished (Normal tt))
  else
    let w1 := record (Issued (AxiosPost url (payload_of m)))
                (record (Console LLog ("Sending webhook to " ++ url ++ " for " ++ u) None)
                   (record (Issued (ConfigSelect u)) w)) in
    match orc (AxiosPost url (payload_of m)) with
    | None =>
      mkOut w1 [] (Blocked (AxiosPost url (payload_of m))
                     (fun s => try_catch (match s with
                                          | Resolved x => Ret x
                                          | Rejected e => Throw e
                                          end ;; Ret tt)
                                 (fun err => console_error ("Error sending webhook for " ++ u) err)))
    | Some (Resolved _) => mkOut w1 [] (Finished (Normal tt))
    | Some (Rejected e) =>
      mkOut (record (Console LError ("Error sending webhook for " ++ u) (Some e)) w1) []
            (Finished (Normal tt))
    end.
Proof.
  intros Hurl Hsel. cbn. rewrite Hsel. cbn.
  destruct url as [|a url]; [done|]. cbn.
  destruct (String.eqb (Js.or trigger "incoming") "incoming" && m_fromMe m); [done|].
  destruct (String.eqb (Js.or trigger "incoming") "outgoing" && negb (m_fromMe m)); [done|].
  cbn. destruct (orc (AxiosPost _ _)) as [[[]|e]|]; reflexivity.
Qed.

(** C5. For a tenant whose stored configuration has a webhook URL: with
    trigger "incoming" an outbound message ([fromMe] true) ends the
    dispatch after the lookup, no POST is issued; with trigger "outgoing"
    an inbound message does the same; with trigger "both" the POST to the
    URL is issued whatever the direction. *)
Theorem webhook_trigger_filter (orc : Oracle) (w : World) (u : string) (m : Message)
        (url trigger : string) :
  url <> "" ->
  orc (ConfigSelect u) = Some (row_found (Js.Text url) (Js.Text trigger)) ->
  let r := exec orc (dispatchWebhook u m) w in
  (trigger = "incoming" -> m_fromMe m = true ->
     r = mkOut (record (Issued (ConfigSelect u)) w) [] (Finished (Normal tt))) /\
  (trigger = "outgoing" -> m_fromMe m = false ->
     r = mkOut (record (Issued (ConfigSelect u)) w) [] (Finished (Normal tt))) /\
  (trigger = "both" ->
     exists rest,
       trace (final r) =
       (trace w ++ [Issued (ConfigSelect u);
                    Console LLog ("Sending webhook to " ++ url ++ " for " ++ u) None;
                    Issued (AxiosPost url (payload_of m))] ++ rest)%list).
Proof.
  intros Hurl Hsel r. subst r.
  rewrite (dispatch_with_row orc w u m url (Js.Text trigger) Hurl Hsel).
  split; [|split].
  - intros -> ->. reflexivity.
  - intros -> ->. reflexivity.
  - intros ->. cbn.
    destruct (orc (AxiosPost url (payload_of m))) as [[[]|e]|]; cbn;
      rewrite <- ?app_assoc; cbn; eexists; reflexivity.
Qed.

Lemma webhook_trigger_filter_witness :
  "https://example.com/hook" <> "" /\
  with_config obliging (row_found (Js.Text "https://example.com/hook") (Js.Text "incoming"))
              (ConfigSelect "u1")
  = Some (row_found (Js.Text "https://example.com/hook") (Js.Text "incoming")) /\
  since (world loop_started)
        (exec (with_config obliging
                 (row_found (Js.Text "https://example.com/hook") (Js.Text "incoming")))
              (dispatchWebhook "u1" sample_outbound) (world loop_started))
  = [Issued (ConfigSelect "u1")].
Proof.
  split; [discriminate|]. split; [reflexivity|].
  rewrite (proj1 (webhook_trigger_filter
                    (with_config obliging
                       (row_found (Js.Text "https://example.com/hook") (Js.Text "incoming")))
                    (world loop_started) "u1" sample_outbound
                    "https://example.com/hook" "incoming" ltac:(discriminate) eq_refl)
                 eq_refl eq_refl).
  reflexivity.
Defined.

(** C6, as stated, fails in one respect: a failure of the configuration
    lookup that the store reports in its [error] field (and likewise a
    missing row or URL) is not logged.  The dispatch ends silently; the
    only effect is the lookup itself. *)
Lemma lookup_error_is_not_logged :
  let orc := with_config obliging (Resolved (mkSelected None (Some "JWT expired"))) in
  let r := exec orc (dispatchWebhook "u1" sample_inbound) (world loop_started) in
  since (world loop_started) r = [Issued (ConfigSelect "u1")] /\
  ~ exists lvl msg arg, In (Console lvl msg arg) (since (world loop_started) r).
Proof.
  split; [reflexivity|].
  intros (lvl & msg & arg & [H | []]). discriminate H.
Qed.

(** C6 (as the code has it). Whatever happens inside [dispatchWebhook],
    nothing is thrown to the one who called it (the [message] handler),
    and the registry, the pairing artifacts and the clients are as before.
    When every call settles, the dispatch finishes normally and:
    a rejected lookup is caught and logged, without a POST;
    a lookup that answers with an error, with no row or with a row without
    URL ends the dispatch silently, without a POST and without a log entry;
    a rejected POST is caught and logged. *)
Theorem webhook_failures_are_contained (orc : Oracle) (w : World) (u : string) (m : Message) :
  let r := exec orc (handler u (EvMessage m)) w in
  (forall e, status r <> Finished (Thrown e)) /\
  parked r = [] /\
  same_state w (final r) /\
  ((forall c, is_Some (orc c)) -> status r = Finished (Normal tt)) /\
  (forall e, orc (ConfigSelect u) = Some (Rejected e) ->
     status r = Finished (Normal tt) /\
     since w r = [Issued (ConfigSelect u);
                  Console LError ("Error sending webhook for " ++ u) (Some e)]) /\
  (forall sel, orc (ConfigSelect u) = Some (Resolved sel) ->
     is_Some (sel_error sel) \/ sel_data sel = None \/
     (exists row, sel_data sel = Some row /\ Js.truthy (webhook_url row) = false) ->
     status r = Finished (Normal tt) /\
     since w r = [Issued (ConfigSelect u)]) /\
  (forall url body e, In (Issued (AxiosPost url body)) (since w r) ->
     orc (AxiosPost url body) = Some (Rejected e) ->
     status r = Finished (Normal tt) /\
     last (since w r) = Some (Console LError ("Error sending webhook for " ++ u) (Some e))).
Proof.
  unfold since. cbn.
  destruct (orc (ConfigSelect u)) as [[[[row|] [err|]]|e]|] eqn:Hsel; cbn.
  2: destruct (Js.truthy (webhook_url row)) eqn:Hurl; cbn.
  2: destruct (String.eqb (Js.or (webhook_trigger row) "incoming") "incoming"
               && m_fromMe m); cbn.
  3: destruct (String.eqb (Js.or (webhook_trigger row) "incoming") "outgoing"
               && negb (m_fromMe m)); cbn.
  4: destruct (orc (AxiosPost _ _)) as [[[]|e]|] eqn:Hpost; cbn.
  all: rewrite <- ?app_assoc; rewrite ?drop_app_length; cbn.
  all: split_and!; try done.
  all: try (intros Hall;
            match goal with
            | H : _ ?c = None |- _ => destruct (Hall c) as [? ?]; congruence
            end).
  all: try (intros sel [= <-]; cbn; intros [[? [=]] | [[=] | (row' & [= <-] & ?)]];
            congruence).
  all: try (intros e0 [=]; fail).
  all: try (intros url body e0 Hin; cbn in Hin; intros Hrej;
            repeat (destruct Hin as [Hin | Hin]; [simplify_eq|]); try done;
            fail).
  intros e0 [= <-]. done.
Qed.

Lemma webhook_failures_are_contained_witness :
  with_config obliging (Rejected "fetch failed") (ConfigSelect "u1")
  = Some (Rejected "fetch failed") /\
  since (world loop_started)
        (exec (with_config obliging (Rejected "fetch failed"))
              (handler "u1" (EvMessage sample_inbound)) (world loop_started))
  = [Issued (ConfigSelect "u1");
     Console LError "Error sending webhook for u1" (Some "fetch failed")].
Proof.
  split; [reflexivity|].
  destruct (webhook_failures_are_contained (with_config obliging (Rejected "fetch failed"))
              (world loop_started) "u1" sample_inbound)
    as (_ & _ & _ & _ & Hrej & _).
  exact (proj2 (Hrej "fetch failed" eq_refl)).
Defined.

(** C9. When the stored trigger is absent, null or empty, the dispatch
    runs exactly as it does for the trigger "incoming": with a webhook
    URL configured, an outbound message is dropped after the lookup and
    for an inbound message the POST is issued.  The route that saves the
    configuration writes "incoming" when the request has no trigger, and
    "incoming" is what the column holds for a row inserted without one. *)
Theorem webhook_trigger_defaults_to_incoming (orc : Oracle) (w : World) (u : string)
        (m : Message) (url trigger : Js.text) :
  trigger = Js.Undefined \/ trigger = Js.Null \/ trigger = Js.Text "" ->
  let run t := exec (with_config orc (row_found url t)) (dispatchWebhook u m) w in
  run trigger = run (Js.Text "incoming") /\
  (forall s, url = Js.Text s -> s <> "" ->
     (m_fromMe m = true ->
        run trigger = mkOut (record (Issued (ConfigSelect u)) w) [] (Finished (Normal tt))) /\
     (m_fromMe m = false ->
        exists rest,
          since w (run trigger) =
          ([Issued (ConfigSelect u);
            Console LLog ("Sending webhook to " ++ s ++ " for " ++ u) None;
            Issued (AxiosPost s (payload_of m))] ++ rest)%list)) /\
  (forall user_id, up_webhook_trigger (save_webhook user_id url trigger) = Js.Text "incoming") /\
  inserted_trigger None = Js.Text "incoming".
Proof.
  intros Htrig run.
  assert (Hor : Js.or trigger "incoming" = "incoming").
  { by destruct Htrig as [-> | [-> | ->]]. }
  split; [|split; [|split]].
  - subst run. cbn beta.
    destruct Htrig as [-> | [-> | ->]]; cbn;
      destruct (Js.truthy url), (m_fromMe m); cbn; try reflexivity;
      destruct (orc (AxiosPost _ _)) as [[[]|e]|]; reflexivity.
  - intros s -> Hs. subst run. cbn beta.
    rewrite (dispatch_with_row (with_config orc (row_found (Js.Text s) trigger)) w u m s trigger
               Hs eq_refl).
    cbn zeta. rewrite Hor. split.
    + intros ->. reflexivity.
    + intros ->. cbn. unfold since.
      destruct (orc (AxiosPost s (payload_of m))) as [[[]|e]|]; cbn;
        rewrite <- ?app_assoc; rewrite drop_app_length; cbn; eexists; reflexivity.
  - intros user_id. cbn. by rewrite Hor.
  - reflexivity.
Qed.

Lemma webhook_trigger_defaults_to_incoming_witness :
  (Js.Null = Js.Undefined \/ Js.Null = Js.Null \/ Js.Null = Js.Text "") /\
  exec (with_config obliging (row_found (Js.Text "https://example.com/hook") Js.Null))
       (dispatchWebhook "u1" sample_outbound) (world loop_started)
  = exec (with_config obliging (row_found (Js.Text "https://example.com/hook")
                                          (Js.Text "incoming")))
         (dispatchWebhook "u1" sample_outbound) (world loop_started).
Proof.
  split; [right; left; reflexivity|].
  apply (webhook_trigger_defaults_to_incoming obliging (world loop_started) "u1"
           sample_outbound (Js.Text "https://example.com/hook") Js.Null).
  right. left. reflexivity.
Defined.

(** ** [deleteSession] *)

(** C7. For a tenant T with a client in the registry, however [logout],
    [destroy] and the removal of the credential directory settle (the
    existence check answers yes or no): [deleteSession T] finishes without
    throwing; [logout] is tried, then [destroy] is tried whether or not
    [logout] failed, and a failure of either is logged as a warning; T is
    removed from the registry in every case; a failing removal of the
    directory is logged as an error; and [disconnected {reason: "logout"}]
    is emitted to T's room at the end. *)
Theorem deleteSession_is_best_effort (orc : Oracle) (w : World) (T : string) (c : Client)
        (present : bool) :
  getClient T w = Some c ->
  (forall call, is_Some (orc call)) ->
  orc (PathExists (Join (authDir w) ("session-" ++ T))) = Some (Resolved present) ->
  let dir := Join (authDir w) ("session-" ++ T) in
  let r := exec orc (deleteSession T) w in
  status r = Finished (Normal tt) /\
  parked r = [] /\
  clients (final r) = delete T (clients w) /\
  getClient T (final r) = None /\
  objects (final r) = objects w /\
  lastQr (final r) = lastQr w /\
  since w r =
    ([Issued (Logout c)] ++ warned "Logout failed" (orc (Logout c)) ++
     [Issued (Destroy c)] ++ warned "Destroy failed" (orc (Destroy c)) ++
     [Issued (PathExists dir)] ++ removal T dir present (orc (Remove dir)) ++
     [Emitted T "disconnected" (DReason "logout")])%list.
Proof.
  unfold getClient, since. intros Hc Hall Hpresent. cbn. rewrite Hc. cbn.
  destruct (Hall (Logout c)) as [lo Hlo]. rewrite Hlo.
  destruct (Hall (Destroy c)) as [de Hde].
  destruct (Hall (Remove (Join (authDir w) ("session-" ++ T)))) as [re Hre].
  destruct lo as [[]|e1]; cbn; rewrite Hde; destruct de as [[]|e2]; cbn;
    rewrite Hpresent; cbn; destruct present; cbn; rewrite ?Hre;
    destruct re as [[]|e3]; cbn;
    rewrite <- ?app_assoc; rewrite drop_app_length; cbn;
    split_and!; try done; apply lookup_delete_eq.
Qed.

Lemma deleteSession_is_best_effort_witness :
  getClient "u1" (world loop_started) = Some 0 /\
  (forall call, is_Some (failing_teardown call)) /\
  failing_teardown (PathExists (Join ".wwebjs_auth" "session-u1")) = Some (Resolved true) /\
  let r := exec failing_teardown (deleteSession "u1") (world loop_started) in
  status r = Finished (Normal tt) /\ getClient "u1" (final r) = None.
Proof.
  assert (Hall : forall call, is_Some (failing_teardown call)).
  { intros []; cbn; eauto. }
  split; [reflexivity|]. split; [exact Hall|]. split; [reflexivity|].
  destruct (deleteSession_is_best_effort failing_teardown (world loop_started) "u1" 0 true
              eq_refl Hall eq_refl) as (H1 & _ & _ & H4 & _).
  split; [exact H1 | exact H4].
Defined.

(** ** [init] *)

Lemma prefix_skip (pat : string) :
  forall s, String.prefix pat s = true -> pat ++ Js.skip (String.length pat) s = s.
Proof.
  induction pat as [|a pat IH]; intros s H; [done|].
  destruct s as [|b s]; [discriminate H|].
  cbn [String.prefix] in H. destruct (Ascii.ascii_dec a b) as [->|]; [|discriminate H].
  change (String b (pat ++ Js.skip (String.length pat) s) = String b s).
  f_equal. by apply IH.
Qed.

(** [item.replace('session-', '')] on a name that starts with the prefix
    strips the prefix, and nothing else. *)
Lemma replace_prefix (item : string) :
  Js.startsWith "session-" item = true ->
  Js.replace "session-" "" item = Js.skip 8 item /\
  "session-" ++ Js.replace "session-" "" item = item.
Proof.
  unfold Js.startsWith. intros H.
  assert (Hr : Js.replace "session-" "" item = Js.skip 8 item).
  { destruct item as [|a item]; [discriminate H|].
    change (Js.replace "session-" "" (String a item))
      with (if String.prefix "session-" (String a item)
            then "" ++ Js.skip (String.length "session-") (String a item)
            else String a (Js.replace "session-" "" item)).
    by rewrite H. }
  split; [exact Hr|]. rewrite Hr. by apply (prefix_skip "session-").
Qed.

(** The first turn of a detached [startClient T], seen from the sweep. *)
Lemma startClient_detached (T : string) (w : World) :
  let o := exec silent (startClient T ;; Ret tt) w in
  parked o = [] /\
  (forall u c, clients w !! u = Some c -> clients (settle o) !! u = Some c) /\
  (forall u c, clients (settle o) !! u = Some c ->
     clients w !! u = Some c \/ (u = T /\ valid_clientId T = true)) /\
  (exists st suf, trace (settle o) = (trace w ++ suf)%list /\
     In (Emitted T "status" (DStatus st)) suf /\
     (forall lvl msg arg, In (Console lvl msg arg) suf -> lvl = LLog) /\
     (clients (settle o) !! T = None -> In (Unhandled invalid_clientId) suf)) /\
  (is_Some (clients w !! T) \/ valid_clientId T = true -> is_Some (clients (settle o) !! T)) /\
  (forall pd, In pd (waiting o) ->
     exists c, pcall pd = Initialize c /\ clients (settle o) !! T = Some c /\ guarded T pd).
Proof.
  cbn. destruct (clients w !! T) as [c|] eqn:E; cbn.
  - split_and!; try done.
    + intros u c' Hu. by left.
    + exists "CONNECTED", [Emitted T "status" (DStatus "CONNECTED")]. split_and!; try done.
      * by left.
      * intros lvl msg arg [[=] | []].
      * congruence.
  - unfold new_Client. destruct (valid_clientId T) eqn:Hv; cbn.
    + split_and!; try done.
      * intros u c Hu. rewrite lookup_insert_ne; [done|]. intros ->. congruence.
      * intros u c. rewrite lookup_insert. case_decide as Hu; [|by left].
        intros _. right. by subst u.
      * eexists "INITIALIZING", _. rewrite <- !app_assoc. split_and!; [reflexivity|..].
        -- cbn. right. by left.
        -- intros lvl msg arg Hin. cbn in Hin.
           destruct Hin as [[= <- _ _] | [[=] | [[=] | []]]]. done.
        -- by rewrite lookup_insert_eq.
      * intros _. rewrite lookup_insert_eq. eauto.
      * intros pd [<- | []]. eexists. split; [reflexivity|]. split; [apply lookup_insert_eq|].
        intros [[]|e] w'; unfold since; cbn.
        -- by rewrite drop_all.
        -- rewrite <- !app_assoc. by rewrite drop_app_length.
    + split_and!; try done.
      * intros u c Hu. by left.
      * eexists "INITIALIZING", _. rewrite <- !app_assoc. split_and!; [reflexivity|..].
        -- cbn. right. by left.
        -- intros lvl msg arg Hin. cbn in Hin.
           destruct Hin as [[= <- _ _] | [[=] | [[=] | []]]]. done.
        -- intros _. cbn. do 2 right. by left.
      * intros [[c Hc] | Hc]; congruence.
Qed.






(** * Further properties of the code *)

(** ** Orderly tasks *)

Section Orderly.

Variable R G : World -> World -> Prop.
Hypothesis R_refl : forall w, R w w.
Hypothesis R_trans : forall w1 w2 w3, R w1 w2 -> R w2 w3 -> R w1 w3.
Hypothesis R_G : forall w w', R w w' -> G w w'.

Lemma orderly_settle (w0 : World) (o : Out unit) :
  R w0 (final o) ->
  (forall e, status o = Finished (Thrown e) -> forall w', R w' (record (Unhandled e) w')) ->
  R w0 (settle o).
Proof.
  intros Hf Ht. unfold settle. destruct (status o) as [[x|e]|c k]; try exact Hf.
  eapply R_trans; [exact Hf|]. by apply Ht.
Qed.

(** A run of an orderly task, whatever the outcomes of its calls. *)
Lemma orderly_exec (p : Prog unit) :
  orderly R p ->
  forall orc w0 w, R w0 w ->
    R w0 (final (exec orc p w)) /\
    (forall e, status (exec orc p w) = Finished (Thrown e) ->
               forall w', R w' (record (Unhandled e) w')) /\
    (forall pd, In pd (pendings (exec orc p w)) -> forall s, tame G (resume pd s)).
Proof.
  induction 1 as [x | e He | X f k Hf Hk IH | c k Hc Hk IH | t k Ht IHt Hk IHk];
    intros orc w0 w Hw.
  - split; [exact Hw|]. split; [intros e [=] | intros pd []].
  - split; [exact Hw|]. split; [intros e' [= <-]; exact He | intros pd []].
  - cbn [exec]. apply IH. eapply R_trans; [exact Hw | apply Hf].
  - assert (Hw' : R w0 (record (Issued c) w)) by (eapply R_trans; [exact Hw | apply Hc]).
    cbn [exec]. destruct (orc c) as [s|].
    + by apply IH.
    + split; [exact Hw'|]. split; [intros e [=]|].
      intros pd [<- | []] s. cbn. constructor.
      * intros w1. apply R_G.
        destruct (IH s silent w1 w1 (R_refl w1)) as (H1 & H2 & _).
        by apply orderly_settle.
      * intros w1. by apply (IH s silent w1 w1), R_refl.
  - cbn [exec].
    destruct (IHt silent w0 w Hw) as (Ht1 & Ht2 & Ht3).
    assert (Hs : R w0 (settle (exec silent t w))) by by apply orderly_settle.
    destruct (IHk orc w0 _ Hs) as (Hk1 & Hk2 & Hk3).
    split; [exact Hk1|]. split; [exact Hk2|].
    intros pd. unfold pendings in *. cbn [parked status waiting].
    rewrite !in_app_iff. intros [[Hin | [Hin | Hin]] | Hin].
    + apply Ht3. rewrite in_app_iff. by left.
    + apply Ht3. rewrite in_app_iff. by right.
    + apply Hk3. rewrite in_app_iff. by left.
    + apply Hk3. rewrite in_app_iff. by right.
Qed.

Lemma orderly_tame (p : Prog unit) : orderly R p -> tame G p.
Proof.
  intros Hp. constructor.
  - intros w. apply R_G.
    destruct (orderly_exec p Hp silent w w (R_refl w)) as (H1 & H2 & _).
    by apply orderly_settle.
  - intros w. by apply (orderly_exec p Hp silent w w), R_refl.
Qed.

End Orderly.

(** ** Tenant isolation *)

Lemma within_refl (T : string) (w : World) : within T w w.
Proof. split; try done. exists []. split; [by rewrite app_nil_r | constructor]. Qed.

Lemma within_trans (T : string) (w1 w2 w3 : World) :
  within T w1 w2 -> within T w2 w3 -> within T w1 w3.
Proof.
  intros [Hc1 Hq1 (s1 & Ht1 & Ha1)] [Hc2 Hq2 (s2 & Ht2 & Ha2)]. split.
  - intros U HU. rewrite Hc2, Hc1; done.
  - intros U HU. rewrite Hq2, Hq1; done.
  - exists (s1 ++ s2)%list. split; [by rewrite Ht2, Ht1, <- app_assoc|].
    by apply Forall_app.
Qed.

Lemma within_record (T : string) (e : Effect) (w : World) :
  addressed T e -> within T w (record e w).
Proof.
  intros He. split; try done. exists [e]. split; [done|]. by constructor.
Qed.

Lemma within_clients_set (T : string) (c : Client) (w : World) :
  within T w (with_clients (insert T c) w).
Proof.
  split; cbn.
  - intros U HU. by apply lookup_insert_ne.
  - done.
  - exists []. split; [by rewrite app_nil_r | constructor].
Qed.

Lemma within_clients_delete (T : string) (w : World) :
  within T w (with_clients (delete T) w).
Proof.
  split; cbn.
  - intros U HU. by apply lookup_delete_ne.
  - done.
  - exists []. split; [by rewrite app_nil_r | constructor].
Qed.

Lemma within_lastQr_set (T qr : string) (w : World) :
  within T w (with_lastQr (insert T qr) w).
Proof.
  split; cbn.
  - done.
  - intros U HU. by apply lookup_insert_ne.
  - exists []. split; [by rewrite app_nil_r | constructor].
Qed.

Lemma within_lastQr_delete (T : string) (w : World) :
  within T w (with_lastQr (delete T) w).
Proof.
  split; cbn.
  - done.
  - intros U HU. by apply lookup_delete_ne.
  - exists []. split; [by rewrite app_nil_r | constructor].
Qed.

Lemma within_alloc (T : string) (o : ClientObj) (w : World) : within T w (alloc o w).
Proof. split; try done. exists []. split; [cbn; by rewrite app_nil_r | constructor]. Qed.

Create HintDb isolation.
#[local] Hint Resolve within_refl within_clients_set within_clients_delete
  within_lastQr_set within_lastQr_delete within_alloc : isolation.

(** Solves the side conditions of [orderly (within T)] for one step. *)
Ltac within_step :=
  first [ apply within_record; cbn; first [exact I | reflexivity]
        | solve [auto with isolation] ].

Ltac within_auto :=
  repeat first
    [ apply orderly_ret
    | apply orderly_throw; intros ?; within_step
    | apply orderly_sync; [intros ?; cbn; within_step | intros ?]
    | apply orderly_await; [intros ?; within_step | intros [?|?]]
    | progress cbn
    | match goal with |- context [if ?b then _ else _] => destruct b end
    | match goal with |- context [match ?x with Some _ => _ | None => _ end] => destruct x end ].

Lemma orderly_within_handler (T : string) (ev : ClientEvent) :
  orderly (within T) (handler T ev).
Proof.
  destruct ev as [qr | | msg | message | reason]; cbn; within_auto.
Qed.

Lemma orderly_within_deleteSession (T : string) : orderly (within T) (deleteSession T).
Proof. unfold deleteSession. cbn. within_auto. Qed.

Lemma orderly_within_startClient (T : string) :
  orderly (within T) (startClient T ;; Ret tt).
Proof. unfold startClient, new_Client. cbn. within_auto. Qed.

(** Dropping the result of a task changes neither the world it leaves nor
    the tasks it detaches. *)
Lemma exec_void {A : Type} (p : Prog A) :
  forall orc w,
    final (exec orc (p ;; Ret tt) w) = final (exec orc p w) /\
    parked (exec orc (p ;; Ret tt) w) = parked (exec orc p w).
Proof.
  induction p as [A a | A e | A X f k IH | A c k IH | A t IHt k IHk]; intros orc w; cbn.
  - done.
  - done.
  - apply IH.
  - destruct (orc c) as [s|]; [apply IH | done].
  - destruct (IHk orc (settle (exec silent t w))) as [H1 H2]. by rewrite H1, H2.
Qed.

(** X1. Whatever tenant T's own tasks do (a start, a session deletion, the
    handler of any event of one of T's clients), and however the outside
    answers, a complete or partial run leaves the client and the pairing
    artifact of every other tenant as they were, and every event it pushes
    goes to T's room. *)
Theorem tenant_tasks_touch_only_their_tenant (T : string) (orc : Oracle) (w : World) :
  (forall ev, within T w (final (exec orc (handler T ev) w))) /\
  within T w (final (exec orc (startClient T) w)) /\
  within T w (final (exec orc (deleteSession T) w)).
Proof.
  split; [|split].
  - intros ev.
    apply (orderly_exec (within T) (within T) (within_refl T) (within_trans T)
             (fun _ _ H => H) _ (orderly_within_handler T ev) orc w w (within_refl T w)).
  - rewrite <- (proj1 (exec_void (startClient T) orc w)).
    apply (orderly_exec (within T) (within T) (within_refl T) (within_trans T)
             (fun _ _ H => H) _ (orderly_within_startClient T) orc w w (within_refl T w)).
  - apply (orderly_exec (within T) (within T) (within_refl T) (within_trans T)
             (fun _ _ H => H) _ (orderly_within_deleteSession T) orc w w (within_refl T w)).
Qed.

(** X2. In the event loop, a task started on behalf of tenant T stays
    within T in every one of its turns, whenever each is taken and whatever
    the other tasks did in between. *)
Theorem tenant_tasks_are_isolated_in_every_turn (r : Request) (w0 : World) (p : Prog unit)
        (T : string) :
  entry r w0 = Some p ->
  tenant_of r w0 = Some T ->
  tame (within T) p.
Proof.
  intros Hentry HT.
  assert (Hord : orderly (within T) p).
  { destruct r as [u | u | | c ev]; cbn in Hentry, HT.
    - injection Hentry as <-. injection HT as <-. apply orderly_within_startClient.
    - injection Hentry as <-. injection HT as <-. apply orderly_within_deleteSession.
    - discriminate HT.
    - destruct (objects w0 !! c) as [o|]; [|discriminate HT].
      injection Hentry as <-. injection HT as <-. apply orderly_within_handler. }
  exact (orderly_tame (within T) (within T) (within_refl T) (within_trans T)
           (fun _ _ H => H) p Hord).
Qed.

Lemma tenant_tasks_are_isolated_in_every_turn_witness :
  entry (ReqEvent 0 (EvDisconnected "LOGOUT")) (world loop_started)
  = Some (handler "u1" (EvDisconnected "LOGOUT")) /\
  tenant_of (ReqEvent 0 (EvDisconnected "LOGOUT")) (world loop_started) = Some "u1" /\
  tame (within "u1") (handler "u1" (EvDisconnected "LOGOUT")).
Proof.
  split; [reflexivity|]. split; [reflexivity|].
  exact (tenant_tasks_are_isolated_in_every_turn
           (ReqEvent 0 (EvDisconnected "LOGOUT")) (world loop_started) _ "u1"
           eq_refl eq_refl).
Defined.

(** ** More on [startClient] and the handlers *)

(** X3. An [auth_failure] event logs the failure and pushes
    [error {message: "Auth failure"}]; the client stays in the registry.
    A start that follows therefore constructs nothing and answers
    [status CONNECTED] with the client whose authentication failed. *)
Theorem auth_failure_keeps_the_client (orc : Oracle) (w : World) (T : string) (c : Client)
        (msg : string) :
  getClient T w = Some c ->
  let r := exec silent (handler T (EvAuthFailure msg)) w in
  status r = Finished (Normal tt) /\
  same_state w (final r) /\
  since w r = [Console LError ("Auth failure for " ++ T ++ ": ") (Some msg);
               Emitted T "error" (DError "Auth failure")] /\
  let r' := exec orc (startClient T) (final r) in
  status r' = Finished (Normal (Some c)) /\
  objects (final r') = objects w /\
  since (final r) r' = [Emitted T "status" (DStatus "CONNECTED")].
Proof.
  unfold getClient, since. intros Hc. cbn. rewrite Hc. cbn. rewrite Hc.
  split_and!; try done.
  - rewrite <- app_assoc. apply drop_app_length.
  - apply drop_app_length.
Qed.

Lemma auth_failure_keeps_the_client_witness :
  getClient "u1" (world loop_started) = Some 0 /\
  status (exec silent (startClient "u1")
            (final (exec silent (handler "u1" (EvAuthFailure "bad session"))
                         (world loop_started))))
  = Finished (Normal (Some 0)).
Proof.
  split; [reflexivity|].
  apply (auth_failure_keeps_the_client silent (world loop_started) "u1" 0 "bad session").
  reflexivity.
Defined.

(** ** More on [deleteSession] *)

Lemma since_extends {A : Type} (w : World) (r : Out A) (suf : list Effect) :
  trace (final r) = (trace w ++ suf)%list -> since w r = suf.
Proof. unfold since. intros ->. apply drop_app_length. Qed.

(** A complete run of [deleteSession], with or without a client in the
    registry. *)
Lemma deleteSession_run (orc : Oracle) (w : World) (T : string) (present : bool) :
  (forall call, is_Some (orc call)) ->
  orc (PathExists (Join (authDir w) ("session-" ++ T))) = Some (Resolved present) ->
  let dir := Join (authDir w) ("session-" ++ T) in
  let r := exec orc (deleteSession T) w in
  status r = Finished (Normal tt) /\
  parked r = [] /\
  clients (final r) = delete T (clients w) /\
  lastQr (final r) = lastQr w /\
  objects (final r) = objects w /\
  authDir (final r) = authDir w /\
  trace (final r) =
    (trace w ++ teardown (clients w !! T) orc ++
     [Issued (PathExists dir)] ++ removal T dir present (orc (Remove dir)) ++
     [Emitted T "disconnected" (DReason "logout")])%list.
Proof.
  intros Hall Hpresent. cbn.
  destruct (Hall (Remove (Join (authDir w) ("session-" ++ T)))) as [re Hre].
  destruct (clients w !! T) as [c|] eqn:Hc; cbn.
  - destruct (Hall (Logout c)) as [lo Hlo]. rewrite Hlo.
    destruct (Hall (Destroy c)) as [de Hde].
    destruct lo as [[]|e1]; cbn; rewrite Hde; destruct de as [[]|e2]; cbn;
      rewrite Hpresent; cbn; destruct present; cbn; rewrite ?Hre;
      destruct re as [[]|e3]; cbn;
      rewrite <- ?app_assoc; cbn; split_and!; done.
  - rewrite Hpresent; cbn; destruct present; cbn; rewrite ?Hre;
      destruct re as [[]|e3]; cbn;
      rewrite <- ?app_assoc; cbn; split_and!; try done; by rewrite delete_id.
Qed.

(** X4. For a tenant without a client in the registry, [deleteSession]
    calls neither [logout] nor [destroy] and leaves the registry as it is;
    it still looks for the credential directory, removes it if it is
    there, and pushes [disconnected {reason: "logout"}] to the tenant. *)
Theorem deleteSession_without_client (orc : Oracle) (w : World) (T : string)
        (present : bool) :
  getClient T w = None ->
  (forall call, is_Some (orc call)) ->
  orc (PathExists (Join (authDir w) ("session-" ++ T))) = Some (Resolved present) ->
  let dir := Join (authDir w) ("session-" ++ T) in
  let r := exec orc (deleteSession T) w in
  status r = Finished (Normal tt) /\
  clients (final r) = clients w /\
  since w r =
    ([Issued (PathExists dir)] ++ removal T dir present (orc (Remove dir)) ++
     [Emitted T "disconnected" (DReason "logout")])%list.
Proof.
  unfold getClient. intros Hc Hall Hpresent.
  destruct (deleteSession_run orc w T present Hall Hpresent)
    as (Hs & _ & Hcl & _ & _ & _ & Htr).
  cbn zeta in *. rewrite Hc in Htr. split; [exact Hs|]. split.
  - rewrite Hcl. by apply delete_id.
  - by apply since_extends.
Qed.

Lemma deleteSession_without_client_witness :
  getClient "u2" (world loop_started) = None /\
  (forall call, is_Some (obliging call)) /\
  obliging (PathExists (Join ".wwebjs_auth" "session-u2")) = Some (Resolved true) /\
  since (world loop_started) (exec obliging (deleteSession "u2") (world loop_started))
  = [Issued (PathExists (Join ".wwebjs_auth" "session-u2"));
     Issued (Remove (Join ".wwebjs_auth" "session-u2"));
     Console LLog "Session files deleted for u2" None;
     Emitted "u2" "disconnected" (DReason "logout")].
Proof.
  assert (Hall : forall call, is_Some (obliging call)) by (intros []; cbn; eauto).
  split; [reflexivity|]. split; [exact Hall|]. split; [reflexivity|].
  exact (proj2 (proj2 (deleteSession_without_client obliging (world loop_started) "u2" true
                         eq_refl Hall eq_refl))).
Defined.

(** X5. Deleting a session twice: once a [deleteSession] has run to its
    end, a second one for the same tenant makes no call on any client
    (no [logout], no [destroy]), leaves the registry as the first one left
    it, without the tenant, and pushes [disconnected] again. *)
Theorem deleteSession_twice (orc orc' : Oracle) (w : World) (T : string)
        (present present' : bool) :
  (forall call, is_Some (orc call)) ->
  (forall call, is_Some (orc' call)) ->
  orc (PathExists (Join (authDir w) ("session-" ++ T))) = Some (Resolved present) ->
  orc' (PathExists (Join (authDir w) ("session-" ++ T))) = Some (Resolved present') ->
  let r := exec orc (deleteSession T) w in
  let r' := exec orc' (deleteSession T) (final r) in
  status r' = Finished (Normal tt) /\
  clients (final r') = clients (final r) /\
  getClient T (final r') = None /\
  Forall (fun e => on_connection e = false) (since (final r) r') /\
  last (since (final r) r') = Some (Emitted T "disconnected" (DReason "logout")).
Proof.
  intros Hall Hall' Hp Hp'.
  destruct (deleteSession_run orc w T present Hall Hp) as (_ & _ & Hcl & _ & _ & Hdir & _).
  cbn zeta in *.
  set (w1 := final (exec orc (deleteSession T) w)) in *.
  assert (Hnone : clients w1 !! T = None) by (rewrite Hcl; apply lookup_delete_eq).
  rewrite <- Hdir in Hp'.
  destruct (deleteSession_run orc' w1 T present' Hall' Hp')
    as (Hs & _ & Hcl' & _ & _ & _ & Htr).
  cbn zeta in *. rewrite Hnone in Htr.
  rewrite (since_extends _ _ _ Htr).
  split; [exact Hs|]. split; [by rewrite Hcl', delete_id|].
  split; [unfold getClient; rewrite Hcl'; apply lookup_delete_eq|].
  unfold removal. destruct present'; cbn.
  - destruct (orc' (Remove _)) as [[[]|e]|]; cbn; split; try done; repeat constructor.
  - split; [repeat constructor | done].
Qed.

Lemma deleteSession_twice_witness :
  (forall call, is_Some (obliging call)) /\
  obliging (PathExists (Join ".wwebjs_auth" "session-u1")) = Some (Resolved true) /\
  getClient "u1" (final (exec obliging (deleteSession "u1")
                           (final (exec obliging (deleteSession "u1")
                                        (world loop_started))))) = None.
Proof.
  assert (Hall : forall call, is_Some (obliging call)) by (intros []; cbn; eauto).
  split; [exact Hall|]. split; [reflexivity|].
  apply (deleteSession_twice obliging obliging (world loop_started) "u1" true true
           Hall Hall eq_refl eq_refl).
Defined.

(** ** More on [init] *)

(** [init] up to the arrival of the listing. *)
Lemma init_listing (orc : Oracle) (w : World) (items : list string) :
  orc (EnsureDir (authDir w)) = Some (Resolved tt) ->
  orc (Readdir (authDir w)) = Some (Resolved items) ->
  exec orc init w =
  exec orc (try_catch (restore items)
              (fun err => console_error "Error restoring sessions:" err))
       (record (Issued (Readdir (authDir w)))
          (record (Issued (EnsureDir (authDir w)))
             (record (Console LLog "Initializing ClientManager..." None) w))).
Proof.
  intros Hdir Hls. cbn -[restore]. rewrite Hdir. cbn -[restore]. rewrite Hls. reflexivity.
Qed.

(** The state a detached [startClient] leaves after its first turn. *)
Lemma startClient_detached_state (T : string) (w : World) :
  let o := exec silent (startClient T ;; Ret tt) w in
  authDir (settle o) = authDir w /\
  match clients w !! T with
  | Some c => clients (settle o) = clients w /\ objects (settle o) = objects w
  | None =>
    if valid_clientId T then
      clients (settle o) = <[T := List.length (objects w)]> (clients w) /\
      objects (settle o) = (objects w ++ [mkClientObj T (authDir w)])%list
    else clients (settle o) = clients w /\ objects (settle o) = objects w
  end.
Proof.
  cbn. destruct (clients w !! T) as [c|] eqn:E; cbn; [by rewrite ?E|].
  unfold new_Client. destruct (valid_clientId T); cbn; by rewrite ?E.
Qed.

Lemma accepted_entries_cons (item : string) (rest : list string) :
  accepted_entries (item :: rest) =
  if Js.startsWith "session-" item && valid_clientId (Js.replace "session-" "" item)
  then item :: accepted_entries rest else accepted_entries rest.
Proof.
  unfold accepted_entries, session_entries. cbn [List.filter].
  destruct (Js.startsWith "session-" item); [|done]. cbn [List.filter andb].
  by destruct (valid_clientId (Js.replace "session-" "" item)).
Qed.

Lemma restore_restored (orc : Oracle) (h : Err -> Prog unit) (items : list string) :
  forall w, restored items w (exec orc (try_catch (restore items) h) w).
Proof.
  induction items as [|item rest IH]; intros w.
  - cbn. split; try done.
    + intros U. split; [by left | intros [H | (item & [] & _)]; exact H].
    + exists []. rewrite app_nil_r. split_and!; try done; constructor.
  - cbn -[startClient]. destruct (Js.startsWith "session-" item) eqn:Hitem; cbn -[startClient].
    + set (T := Js.replace "session-" "" item).
      set (w1 := record _ w).
      destruct (startClient_detached_state T w1) as (Hdir & Hcase).
      cbn zeta in Hdir, Hcase.
      set (o := exec silent (startClient T ;; Ret tt) w1) in *.
      destruct (IH (settle o)) as [Id Ik Ir (news & Io & Il & Ind & If)].
      assert (Hmono : forall U c, clients w !! U = Some c -> clients (settle o) !! U = Some c).
      { intros U c HU. change (clients w) with (clients w1) in HU.
        destruct (clients w1 !! T) as [c0|] eqn:E; [|destruct (valid_clientId T)].
        - destruct Hcase as [-> _]. exact HU.
        - destruct Hcase as [-> _]. rewrite lookup_insert_ne; [done|]. intros ->. congruence.
        - destruct Hcase as [-> _]. exact HU. }
      assert (Hfiled : is_Some (clients w !! T) \/ valid_clientId T = true ->
                       is_Some (clients (settle o) !! T)).
      { change (clients w) with (clients w1).
        destruct (clients w1 !! T) as [c0|] eqn:E; [|destruct (valid_clientId T)].
        - destruct Hcase as [-> _]. intros _. by rewrite E.
        - destruct Hcase as [-> _]. intros _. rewrite lookup_insert_eq. eauto.
        - intros [[c Hc] | Hv]; congruence. }
      assert (Hback : forall U, is_Some (clients (settle o) !! U) ->
                                is_Some (clients w !! U) \/ (U = T /\ valid_clientId T = true)).
      { intros U HU. change (clients w) with (clients w1).
        destruct (clients w1 !! T) as [c0|] eqn:E; [|destruct (valid_clientId T)].
        - destruct Hcase as [Hc _]. rewrite Hc in HU. by left.
        - destruct Hcase as [Hc _]. rewrite Hc in HU.
          destruct (decide (U = T)) as [->|Hne]; [by right|].
          rewrite lookup_insert_ne in HU by done. by left.
        - destruct Hcase as [Hc _]. rewrite Hc in HU. by left. }
      split; cbn [final parked status].
      * by rewrite Id, Hdir.
      * intros U c HU. by apply Ik, Hmono.
      * intros U. rewrite Ir. split.
        -- intros [HU | (item' & Hin & Hp & Hrep & Hv)].
           ++ destruct (Hback U HU) as [H | [-> Hv]]; [by left|].
              right. exists item. split; [by left | done].
           ++ right. exists item'. split; [by right | done].
        -- intros [[c HU] | (item' & [<- | Hin] & Hp & Hrep & Hv)].
           ++ left. exists c. by apply Hmono.
           ++ left. rewrite <- Hrep. apply Hfiled. right. fold T in Hrep. congruence.
           ++ right. by exists item'.
      * assert (Hrest : Forall (fun o' =>
                  dataPath o' = authDir w /\ clients w !! clientId o' = None /\
                  valid_clientId (clientId o') = true /\
                  (exists item', In item' (item :: rest) /\
                     Js.startsWith "session-" item' = true /\
                     Js.replace "session-" "" item' = clientId o') /\
                  (is_Some (clients (settle o) !! T) -> clientId o' <> T)) news).
        { eapply Forall_impl; [exact If|].
          intros o' (Hd & Hn & Hv & (item' & Hin & Hp & Hrep)).
          split; [by rewrite Hd, Hdir|]. split.
          - destruct (clients w !! clientId o') as [c'|] eqn:E'; [|done].
            apply Hmono in E'. congruence.
          - split; [done|]. split; [exists item'; split; [by right | done]|].
            intros [c' Hc'] Heq. congruence. }
        assert (Hlen : List.length (accepted_entries rest)
                       <= List.length (accepted_entries (item :: rest))).
        { rewrite accepted_entries_cons.
          destruct (Js.startsWith "session-" item && valid_clientId _); cbn [List.length]; lia. }
        change (clients w) with (clients w1) in Hrest.
        change (authDir w) with (authDir w1) in Hrest.
        change (objects w) with (objects w1).
        change (clients w) with (clients w1).
        change (authDir w) with (authDir w1).
        destruct (clients w1 !! T) as [c0|] eqn:E; [|destruct (valid_clientId T) eqn:Hv].
        -- destruct Hcase as [_ Ho]. exists news. rewrite Io, Ho.
           split; [done|]. split; [lia|]. split; [done|].
           eapply Forall_impl; [exact Hrest|]. intros o' (? & ? & ? & ? & ?). done.
        -- destruct Hcase as [Hcl Ho]. exists (mkClientObj T (authDir w1) :: news).
           rewrite Io, Ho, <- app_assoc. split; [done|].
           split.
           { rewrite accepted_entries_cons, Hitem. fold T. rewrite Hv.
             cbn [andb List.length]. lia. }
           split.
           ++ cbn. constructor; [|done]. intros Hin.
              apply list_elem_of_fmap in Hin as (o' & Heq & Hin).
              rewrite Forall_forall in Hrest.
              destruct (Hrest o' Hin) as (_ & _ & _ & _ & Hne). cbn in Heq.
              apply Hne; [|done]. rewrite Hcl, lookup_insert_eq. eauto.
           ++ constructor.
              ** cbn. split; [done|]. split; [done|]. split; [done|].
                 exists item. split; [by left | done].
              ** eapply Forall_impl; [exact Hrest|]. intros o' (? & ? & ? & ? & ?). done.
        -- destruct Hcase as [_ Ho]. exists news. rewrite Io, Ho.
           split; [done|]. split; [lia|]. split; [done|].
           eapply Forall_impl; [exact Hrest|]. intros o' (? & ? & ? & ? & ?). done.
    + destruct (IH w) as [Id Ik Ir (news & Io & Il & Ind & If)]. split; try done.
      * intros U. rewrite Ir. split.
        -- intros [H | (item' & Hin & Hp & Hrep)]; [by left|].
           right. exists item'. split; [by right | done].
        -- intros [H | (item' & [<- | Hin] & Hp & Hrep)]; [by left | congruence |].
           right. by exists item'.
      * exists news. split; [done|]. split.
        { rewrite accepted_entries_cons, Hitem. exact Il. }
        split; [done|].
        eapply Forall_impl; [exact If|].
        intros o' (Hd & Hn & Hv & (item' & Hin & Hp & Hrep)).
        split; [done|]. split; [done|]. split; [done|].
        exists item'. split; [by right | done].
Qed.

(** X6. When the credential directory cannot be made, [init] rejects with
    that error and never lists it.  When the listing fails, the failure is
    caught and logged, [init] finishes, and no client is constructed and
    nothing is pushed. *)
Theorem init_when_the_directory_fails (orc : Oracle) (w : World) (e : Err) :
  let w1 := record (Issued (EnsureDir (authDir w)))
              (record (Console LLog "Initializing ClientManager..." None) w) in
  (orc (EnsureDir (authDir w)) = Some (Rejected e) ->
   exec orc init w = mkOut w1 [] (Finished (Thrown e))) /\
  (orc (EnsureDir (authDir w)) = Some (Resolved tt) ->
   orc (Readdir (authDir w)) = Some (Rejected e) ->
   exec orc init w =
   mkOut (record (Console LError "Error restoring sessions:" (Some e))
            (record (Issued (Readdir (authDir w))) w1))
         [] (Finished (Normal tt))).
Proof.
  split.
  - intros Hdir. cbn. by rewrite Hdir.
  - intros Hdir Hls. cbn. rewrite Hdir. cbn. by rewrite Hls.
Qed.

Lemma init_when_the_directory_fails_witness :
  no_directory (EnsureDir ".wwebjs_auth") = Some (Rejected "EACCES: permission denied") /\
  status (exec no_directory init (world (boot ".wwebjs_auth")))
  = Finished (Thrown "EACCES: permission denied").
Proof.
  split; [reflexivity|].
  rewrite (proj1 (init_when_the_directory_fails no_directory (world (boot ".wwebjs_auth"))
                    "EACCES: permission denied") eq_refl).
  reflexivity.
Defined.

(** X7. After the sweep the tenants with a client are exactly those that
    had one before and those named by an entry with the "session-" prefix
    whose identifier the client constructor accepts.  The clients the
    sweep constructs are all for different tenants, each for a tenant that
    had none and is named by such an entry, each with the manager's
    directory as its data path; there are never more of them than such
    entries.  Entries without the prefix, and entries that name an
    identifier the constructor refuses, construct nothing. *)
Theorem sweep_registers_exactly_the_session_entries (orc : Oracle) (w : World)
        (items : list string) :
  orc (EnsureDir (authDir w)) = Some (Resolved tt) ->
  orc (Readdir (authDir w)) = Some (Resolved items) ->
  let r := exec orc init w in
  (forall U, is_Some (getClient U (final r)) <->
             is_Some (getClient U w) \/
             exists item, In item items /\ Js.startsWith "session-" item = true /\
                          Js.replace "session-" "" item = U /\ valid_clientId U = true) /\
  exists news,
    objects (final r) = (objects w ++ news)%list /\
    List.length news <= List.length (accepted_entries items) /\
    NoDup (clientId <$> news) /\
    Forall (fun o => dataPath o = authDir w /\
                     getClient (clientId o) w = None /\
                     valid_clientId (clientId o) = true /\
                     exists item, In item items /\ Js.startsWith "session-" item = true /\
                                  Js.replace "session-" "" item = clientId o) news.
Proof.
  intros Hdir Hls. cbn zeta. rewrite (init_listing orc w items Hdir Hls).
  set (h := fun err : Err => _). set (w2 := record (Issued (Readdir _)) _).
  destruct (restore_restored orc h items w2) as [_ _ Hreg Hheap].
  split; [exact Hreg | exact Hheap].
Qed.

Lemma sweep_registers_exactly_the_session_entries_witness :
  mixed_listing (EnsureDir ".wwebjs_auth") = Some (Resolved tt) /\
  mixed_listing (Readdir ".wwebjs_auth")
  = Some (Resolved ["notes.txt"; "session-u7"; "session-u1"]) /\
  ~ is_Some (getClient "notes.txt" (final (exec mixed_listing init (world loop_started)))).
Proof.
  split; [reflexivity|]. split; [reflexivity|].
  intros Hsome.
  apply (proj1 (sweep_registers_exactly_the_session_entries mixed_listing (world loop_started)
                  ["notes.txt"; "session-u7"; "session-u1"] eq_refl eq_refl)) in Hsome.
  destruct Hsome as [[c Hc] | (item & Hin & Hp & Hrep & _)]; [discriminate Hc|].
  destruct Hin as [<- | [<- | [<- | []]]]; discriminate.
Defined.

Lemma prefix_app (pat s : string) : String.prefix pat (pat ++ s) = true.
Proof.
  induction pat as [|a pat IH]; [by destruct s|].
  change (String.prefix (String a pat) (String a (pat ++ s)) = true).
  cbn [String.prefix]. by destruct (Ascii.ascii_dec a a).
Qed.

Lemma skip_app (pat s : string) : Js.skip (String.length pat) (pat ++ s) = s.
Proof. induction pat as [|a pat IH]; [by destruct s | exact IH]. Qed.

Lemma replace_session_name (T : string) :
  Js.startsWith "session-" ("session-" ++ T) = true /\
  Js.replace "session-" "" ("session-" ++ T) = T.
Proof.
  assert (Hp : Js.startsWith "session-" ("session-" ++ T) = true)
    by apply (prefix_app "session-").
  split; [exact Hp|].
  rewrite (proj1 (replace_prefix _ Hp)). apply (skip_app "session-").
Qed.

(** X8. The name under which [deleteSession] looks for a tenant's
    credentials, "session-" followed by the identifier, is read back by the
    sweep as that identifier, whatever the identifier is (even one that
    itself begins with "session-").  So a sweep over the directories of a
    list of tenants leaves with a client every one of them whose
    identifier the client constructor accepts; one whose identifier it
    refuses has a client afterwards only if it had one before. *)
Theorem session_directory_name_round_trip (orc : Oracle) (w : World)
        (tenants : list string) :
  orc (EnsureDir (authDir w)) = Some (Resolved tt) ->
  orc (Readdir (authDir w)) = Some (Resolved (String.append "session-" <$> tenants)) ->
  (forall T, Js.startsWith "session-" ("session-" ++ T) = true /\
             Js.replace "session-" "" ("session-" ++ T) = T) /\
  (forall T, In T tenants ->
     (is_Some (getClient T (final (exec orc init w))) <->
      is_Some (getClient T w) \/ valid_clientId T = true)).
Proof.
  intros Hdir Hls. split; [exact replace_session_name|].
  intros T HT. rewrite (init_listing orc w _ Hdir Hls).
  set (h := fun err : Err => _). set (w2 := record (Issued (Readdir _)) _).
  destruct (restore_restored orc h (String.append "session-" <$> tenants) w2)
    as [_ _ Hreg _].
  unfold getClient. rewrite (Hreg T). split.
  - intros [H | (item & _ & _ & _ & Hv)]; [by left | by right].
  - intros [H | Hv]; [by left|]. right. exists ("session-" ++ T).
    destruct (replace_session_name T) as [Hp Hr].
    split; [|done].
    apply list_elem_of_In, list_elem_of_fmap. exists T. split; [done|].
    by apply list_elem_of_In.
Qed.

Lemma session_directory_name_round_trip_witness :
  named_listing (EnsureDir ".wwebjs_auth") = Some (Resolved tt) /\
  named_listing (Readdir ".wwebjs_auth")
  = Some (Resolved (String.append "session-" <$> ["u1"; "session-x"])) /\
  valid_clientId "session-x" = true /\
  is_Some (getClient "session-x" (final (exec named_listing init (world (boot ".wwebjs_auth"))))).
Proof.
  split; [reflexivity|]. split; [reflexivity|]. split; [reflexivity|].
  apply (proj2 (session_directory_name_round_trip named_listing (world (boot ".wwebjs_auth"))
                  ["u1"; "session-x"] eq_refl eq_refl) "session-x").
  - right. by left.
  - by right.
Defined.

(** ** More on [dispatchWebhook] *)

(** X9. One message causes at most one webhook delivery, however the
    calls settle (a failed POST is not tried again); and when there is a
    delivery, it goes to the URL of the tenant's stored row, which the
    store returned without error, and carries the payload built from this
    message. *)
Theorem dispatch_posts_at_most_once (orc : Oracle) (w : World) (u : string) (m : Message) :
  let r := exec orc (dispatchWebhook u m) w in
  posts (since w r) = [] \/
  exists url row,
    orc (ConfigSelect u) = Some (Resolved (mkSelected (Some row) None)) /\
    webhook_url row = Js.Text url /\ url <> "" /\
    posts (since w r) = [(url, payload_of m)].
Proof.
  unfold since. cbn.
  destruct (orc (ConfigSelect u)) as [[[[row|] [err|]]|e]|] eqn:Hsel; cbn.
  2: destruct row as [[| |[|a url]] trigger]; cbn.
  5: destruct (String.eqb (Js.or trigger "incoming") "incoming" && m_fromMe m); cbn.
  6: destruct (String.eqb (Js.or trigger "incoming") "outgoing" && negb (m_fromMe m)); cbn.
  7: destruct (orc (AxiosPost _ _)) as [[[]|e]|] eqn:Hpost; cbn.
  all: rewrite <- ?app_assoc; rewrite ?drop_app_length; cbn.
  all: try (left; reflexivity).
  all: right; eexists _, _; split; [reflexivity|]; split; [reflexivity|]; split; done.
Qed.

(** X10. With a webhook URL configured, the effective trigger (the stored
    one, or "incoming" when it is absent or empty) decides the delivery:
    "incoming" delivers exactly the inbound messages, "outgoing" exactly
    the outbound ones, and every other value, "both" or not, delivers
    every message. *)
Theorem delivery_follows_the_trigger (orc : Oracle) (w : World) (u : string) (m : Message)
        (url : string) (trigger : Js.text) :
  url <> "" ->
  orc (ConfigSelect u) = Some (row_found (Js.Text url) trigger) ->
  let t := Js.or trigger "incoming" in
  let sent := posts (since w (exec orc (dispatchWebhook u m) w)) in
  (t = "incoming" -> sent = if m_fromMe m then [] else [(url, payload_of m)]) /\
  (t = "outgoing" -> sent = if m_fromMe m then [(url, payload_of m)] else []) /\
  (t <> "incoming" -> t <> "outgoing" -> sent = [(url, payload_of m)]).
Proof.
  intros Hurl Hsel. cbn zeta.
  rewrite (dispatch_with_row orc w u m url trigger Hurl Hsel). cbn zeta.
  assert (Hsent : forall b : bool,
    posts (since w
      (if b then mkOut (record (Issued (ConfigSelect u)) w) [] (Finished (Normal tt))
       else
         match orc (AxiosPost url (payload_of m)) with
         | Some (Resolved _) =>
           mkOut (record (Issued (AxiosPost url (payload_of m)))
                    (record (Console LLog ("Sending webhook to " ++ url ++ " for " ++ u) None)
                       (record (Issued (ConfigSelect u)) w))) [] (Finished (Normal tt))
         | Some (Rejected e) =>
           mkOut (record (Console LError ("Error sending webhook for " ++ u) (Some e))
                    (record (Issued (AxiosPost url (payload_of m)))
                       (record (Console LLog ("Sending webhook to " ++ url ++ " for " ++ u) None)
                          (record (Issued (ConfigSelect u)) w)))) [] (Finished (Normal tt))
         | None =>
           mkOut (record (Issued (AxiosPost url (payload_of m)))
                    (record (Console LLog ("Sending webhook to " ++ url ++ " for " ++ u) None)
                       (record (Issued (ConfigSelect u)) w))) []
                 (Blocked (AxiosPost url (payload_of m))
                    (fun s => try_catch (match s with
                                         | Resolved x => Ret x
                                         | Rejected e => Throw e
                                         end ;; Ret tt)
                                (fun err => console_error ("Error sending webhook for " ++ u) err)))
         end))
    = if b then [] else [(url, payload_of m)]).
  { intros [|]; unfold since; cbn.
    - by rewrite drop_app_length.
    - destruct (orc (AxiosPost url (payload_of m))) as [[[]|e]|]; cbn;
        rewrite <- ?app_assoc; by rewrite drop_app_length. }
  rewrite Hsent. split; [|split].
  - intros ->. by destruct (m_fromMe m).
  - intros ->. by destruct (m_fromMe m).
  - intros H1 H2. apply String.eqb_neq in H1, H2. by rewrite H1, H2.
Qed.

Lemma delivery_follows_the_trigger_witness :
  "https://example.com/hook" <> "" /\
  with_config obliging (row_found (Js.Text "https://example.com/hook") (Js.Text "all"))
              (ConfigSelect "u1")
  = Some (row_found (Js.Text "https://example.com/hook") (Js.Text "all")) /\
  posts (since (world loop_started)
           (exec (with_config obliging
                    (row_found (Js.Text "https://example.com/hook") (Js.Text "all")))
                 (dispatchWebhook "u1" sample_outbound) (world loop_started)))
  = [("https://example.com/hook", payload_of sample_outbound)].
Proof.
  split; [discriminate|]. split; [reflexivity|].
  apply (delivery_follows_the_trigger
           (with_config obliging
              (row_found (Js.Text "https://example.com/hook") (Js.Text "all")))
           (world loop_started) "u1" sample_outbound "https://example.com/hook"
           (Js.Text "all") ltac:(discriminate) eq_refl); discriminate.
Defined.

(** [s.includes(pat)] holds exactly when [pat] occurs somewhere in [s]. *)
Lemma includes_spec (pat s : string) :
  Js.includes pat s = true <-> exists a b, s = a ++ pat ++ b.
Proof.
  induction s as [|c s IH].
  - destruct pat as [|p pat].
    + split; [|done]. intros _. by exists "", "".
    + split; [discriminate|]. intros (a & b & Heq).
      destruct a; discriminate Heq.
  - cbn [Js.includes]. destruct (String.prefix pat (String c s)) eqn:Hp.
    + split; [|done]. intros _. exists "", (Js.skip (String.length pat) (String c s)).
      symmetry. by apply prefix_skip.
    + rewrite IH. split.
      * intros (a & b & ->). by exists (String c a), b.
      * intros (a & b & Heq). destruct a as [|c' a].
        -- change ("" ++ pat ++ b) with (pat ++ b) in Heq.
           rewrite Heq, prefix_app in Hp. discriminate Hp.
        -- injection Heq as -> ->. by exists a, b.
Qed.

(** X11. The payload's group flag is set exactly when "@g.us" occurs
    somewhere in the sender address, not only at its end; the sender's
    display name is always a string, empty when the message has none. *)
Theorem payload_group_flag (m : Message) :
  (p_isGroup (payload_of m) = true <-> exists a b, m_from m = a ++ "@g.us" ++ b) /\
  (p_notifyName (payload_of m) = "" <->
   m_notifyName m = Js.Undefined \/ m_notifyName m = Js.Null \/ m_notifyName m = Js.Text "").
Proof.
  split; [apply includes_spec|]. cbn.
  destruct (m_notifyName m) as [| |[|a s]]; cbn; split; auto.
  - intros [=].
  - intros [[=] | [[=] | [=]]].
Qed.

(** ** What the trace records, in every reachable state *)

Lemma initialized_app (c : Client) (l1 l2 : list Effect) :
  initialized c (l1 ++ l2) = initialized c l1 + initialized c l2.
Proof.
  induction l1 as [|e l1 IH]; [done|].
  destruct e as [| |[]|]; cbn; rewrite ?IH; lia.
Qed.

Lemma plain_refl (w : World) : plain w w.
Proof. split; try done. exists []. split; [by rewrite app_nil_r | done]. Qed.

Lemma plain_trans (w1 w2 w3 : World) : plain w1 w2 -> plain w2 w3 -> plain w1 w3.
Proof.
  intros [Hd1 Ho1 Hq1 (s1 & Ht1 & Hi1)] [Hd2 Ho2 Hq2 (s2 & Ht2 & Hi2)].
  split; [congruence..|]. exists (s1 ++ s2)%list. split.
  - by rewrite Ht2, Ht1, <- app_assoc.
  - intros c. by rewrite initialized_app, Hi1, Hi2.
Qed.

Lemma plain_record (e : Effect) (w : World) :
  (forall c, initialized c [e] = 0) -> plain w (record e w).
Proof. intros He. split; try done. by exists [e]. Qed.

Lemma plain_with_clients (f : gmap string Client -> gmap string Client) (w : World) :
  plain w (with_clients f w).
Proof. split; try done. exists []. split; [cbn; by rewrite app_nil_r | done]. Qed.

Lemma plain_lawful (w w' : World) : plain w w' -> lawful w w'.
Proof.
  intros [Hd Ho Hq (suf & Ht & Hi)]. split; [done | |].
  - exists []. rewrite app_nil_r. split; [done | constructor].
  - exists suf. split; [done|]. split.
    + intros c. rewrite Hi, Ho. case_decide; [lia | done].
    + intros T q. rewrite Hq. by left.
Qed.

Lemma lawful_refl (w : World) : lawful w w.
Proof. apply plain_lawful, plain_refl. Qed.

Lemma lawful_trans (w1 w2 w3 : World) : lawful w1 w2 -> lawful w2 w3 -> lawful w1 w3.
Proof.
  intros [Hd1 (n1 & Ho1 & Hp1) (s1 & Ht1 & Hi1 & Hq1)]
         [Hd2 (n2 & Ho2 & Hp2) (s2 & Ht2 & Hi2 & Hq2)].
  split; [congruence | |].
  - exists (n1 ++ n2)%list. split; [by rewrite Ho2, Ho1, <- app_assoc|].
    apply Forall_app. split; [done|]. by rewrite <- Hd1.
  - exists (s1 ++ s2)%list. split; [by rewrite Ht2, Ht1, <- app_assoc|]. split.
    + intros c. rewrite initialized_app, Hi1, Hi2.
      assert (List.length (objects w1) <= List.length (objects w2))
        by (rewrite Ho1, length_app; lia).
      assert (List.length (objects w2) <= List.length (objects w3))
        by (rewrite Ho2, length_app; lia).
      repeat case_decide; lia.
    + intros T q Hq. rewrite in_app_iff.
      destruct (Hq2 T q Hq) as [H | H]; [|by right; right].
      destruct (Hq1 T q H) as [H' | H']; [by left | by right; left].
Qed.

Lemma lawful_record (e : Effect) (w w' : World) :
  (forall c, initialized c [e] = 0) -> lawful w w' -> lawful w (record e w').
Proof.
  intros He Hl. eapply lawful_trans; [exact Hl|]. by apply plain_lawful, plain_record.
Qed.

Lemma lawful_started (T : string) (w : World) :
  valid_clientId T = true -> lawful w (started T w).
Proof.
  intros Hv. split; [done | |].
  - exists [mkClientObj T (authDir w)]. split; [done|]. by repeat constructor.
  - eexists. split; [cbn; rewrite <- !app_assoc; reflexivity|]. split.
    + intros c. cbn. rewrite length_app. cbn.
      destruct (Nat.eqb_spec c (List.length (objects w))); case_decide; lia.
    + intros U q. by left.
Qed.

Create HintDb audit.
#[local] Hint Resolve plain_refl plain_with_clients : audit.

Ltac plain_step :=
  first [ apply plain_record; intros ?; reflexivity
        | solve [auto with audit] ].

Ltac plain_auto :=
  repeat first
    [ apply orderly_ret
    | apply orderly_throw; intros ?; plain_step
    | apply orderly_sync; [intros ?; cbn; plain_step | intros ?]
    | apply orderly_await; [intros ?; plain_step | intros [?|?]]
    | progress cbn
    | match goal with |- context [if ?b then _ else _] => destruct b end
    | match goal with |- context [match ?x with Some _ => _ | None => _ end] => destruct x end ].

(** A world that differs from [w] by recorded effects, none an [initialize]. *)
Ltac plain_records :=
  repeat (eapply plain_trans; [|apply plain_record; intros ?; reflexivity]);
  apply plain_refl.

Lemma orderly_tame_lawful (p : Prog unit) : orderly plain p -> tame lawful p.
Proof. apply (orderly_tame plain lawful plain_refl plain_trans plain_lawful). Qed.

Lemma lawful_settle (w : World) (o : Out unit) : lawful w (final o) -> lawful w (settle o).
Proof.
  intros H. unfold settle. destruct (status o) as [[|e]|]; try done.
  by apply lawful_record.
Qed.

(** The first turn of a detached [startClient] is lawful, and what it
    leaves waiting is plain. *)
Lemma startClient_lawful (T : string) (w : World) :
  let o := exec silent (startClient T ;; Ret tt) w in
  lawful w (settle o) /\
  forall pd, In pd (pendings o) -> forall s, orderly plain (resume pd s).
Proof.
  cbn. destruct (clients w !! T) as [c|] eqn:E; cbn.
  - split; [|intros pd []]. apply plain_lawful. plain_records.
  - unfold new_Client. destruct (valid_clientId T) eqn:Hv; cbn.
    + split; [by apply lawful_started|].
      intros pd [<- | []] [[]|e]; cbn; plain_auto.
    + split; [|intros pd []]. apply plain_lawful. plain_records.
Qed.

Lemma restore_lawful (h : Err -> Prog unit) (items : list string) :
  forall w0 w, lawful w0 w ->
    let o := exec silent (try_catch (restore items) h) w in
    lawful w0 (settle o) /\
    forall pd, In pd (pendings o) -> forall s, tame lawful (resume pd s).
Proof.
  induction items as [|item rest IH]; intros w0 w Hw.
  - cbn. split; [done | intros pd []].
  - cbn -[startClient]. destruct (Js.startsWith "session-" item); cbn -[startClient].
    + set (T := Js.replace "session-" "" item).
      set (w1 := record _ w).
      destruct (startClient_lawful T w1) as [Hl Hp]. cbn zeta in Hl, Hp.
      assert (Hw1 : lawful w0 (settle (exec silent (startClient T ;; Ret tt) w1))).
      { eapply lawful_trans; [|exact Hl]. by apply lawful_record. }
      destruct (IH w0 _ Hw1) as [Hl2 Hp2]. cbn zeta in Hl2, Hp2.
      split; [exact Hl2|].
      intros pd. unfold pendings in *. cbn [parked status waiting].
      rewrite !in_app_iff. intros [[Hin | [Hin | Hin]] | Hin] s.
      * apply orderly_tame_lawful, Hp. rewrite in_app_iff. by left.
      * apply orderly_tame_lawful, Hp. rewrite in_app_iff. by right.
      * apply Hp2. rewrite in_app_iff. by left.
      * apply Hp2. rewrite in_app_iff. by right.
    + by apply IH.
Qed.

(** Every task the loop can start is lawful in every turn. *)
Lemma entry_lawful (r : Request) (w0 : World) (p : Prog unit) :
  entry r w0 = Some p -> tame lawful p.
Proof.
  destruct r as [u | u | | c ev]; cbn.
  - intros [= <-]. constructor; intros w.
    + apply startClient_lawful.
    + intros pd Hin s. by apply orderly_tame_lawful, (startClient_lawful u w).
  - intros [= <-]. apply orderly_tame_lawful. unfold deleteSession. cbn. plain_auto.
  - intros [= <-]. constructor; intros w; cbn.
    + apply plain_lawful. plain_records.
    + intros pd [<- | []] [[]|e]; cbn.
      * constructor; intros w1; cbn.
        -- apply plain_lawful. plain_records.
        -- intros pd [<- | []] [items|e]; cbn.
           ++ constructor; intros w2.
              ** apply (restore_lawful _ items w2 w2), lawful_refl.
              ** apply (restore_lawful _ items w2 w2), lawful_refl.
           ++ apply orderly_tame_lawful. plain_auto.
      * apply orderly_tame_lawful. plain_auto.
  - destruct (objects w0 !! c) as [o|]; [|discriminate]. intros [= <-].
    destruct ev as [qr | | msg | message | reason].
    + constructor; [|intros w pd []]. intros w. cbn. split; [done | |].
      * exists []. rewrite app_nil_r. split; [done | constructor].
      * eexists. split; [cbn; rewrite <- !app_assoc; reflexivity|]. split.
        -- intros c'. cbn. case_decide; [lia | done].
        -- intros U q. cbn. rewrite lookup_insert. case_decide as HU.
           ++ intros [= <-]. subst U. right. right. by left.
           ++ by left.
    + constructor; [|intros w pd []]. intros w. cbn. split; [done | |].
      * exists []. rewrite app_nil_r. split; [done | constructor].
      * eexists. split; [cbn; rewrite <- !app_assoc; reflexivity|]. split.
        -- intros c'. cbn. case_decide; [lia | done].
        -- intros U q. cbn. rewrite lookup_delete. case_decide; [done | by left].
    + apply orderly_tame_lawful. plain_auto.
    + apply orderly_tame_lawful. unfold handler, on_message, dispatchWebhook. cbn. plain_auto.
    + apply orderly_tame_lawful. plain_auto.
Qed.

Lemma lawful_step (l l' : Loop) :
  step l l' -> pool_tame lawful (pool l) ->
  lawful (world l) (world l') /\ pool_tame lawful (pool l').
Proof.
  intros Hstep Hpool. destruct Hstep as [l r p Hentry | l i c k s Hi]; cbn.
  - destruct (tame_inv _ _ (entry_lawful r (world l) p Hentry)) as [H1 H2].
    split; [apply H1|].
    intros pd. rewrite in_app_iff. intros [Hin | Hin]; [by apply Hpool|].
    by apply (H2 (world l)).
  - destruct (tame_inv _ _ (pool_lookup_tame _ _ _ _ _ s Hpool Hi)) as [H1 H2].
    split; [apply H1|].
    intros pd. rewrite in_app_iff. intros [Hin | Hin]; [|by apply (H2 (world l))].
    apply Hpool. apply list_elem_of_In. apply list_elem_of_In in Hin.
    by eapply list_elem_of_delete_inv.
Qed.

Lemma audited_lawful (w w' : World) : audited w -> lawful w w' -> audited w'.
Proof.
  intros [Ai Aq Ap] [Hd (news & Ho & Hp) (suf & Ht & Hi & Hq)]. split.
  - intros c. rewrite Ht, initialized_app, Ai, Hi.
    assert (List.length (objects w) <= List.length (objects w'))
      by (rewrite Ho, length_app; lia).
    repeat case_decide; lia.
  - intros T q HT. rewrite Ht, in_app_iff.
    destruct (Hq T q HT) as [H | H]; [left; by apply Aq | by right].
  - rewrite Ho, Hd. by apply Forall_app.
Qed.

Lemma reachable_audited (l : Loop) :
  reachable l -> audited (world l) /\ pool_tame lawful (pool l).
Proof.
  intros [dir Hrtc]. revert l Hrtc. apply rtc_ind_r.
  - split; [|intros pd []]. split; cbn; try done.
  - intros l l' _ Hstep [Ha Hp]. destruct (lawful_step l l' Hstep Hp) as [Hl Hp'].
    split; [by eapply audited_lawful | done].
Qed.

(** In every state the event loop can reach, every client constructed so
    far has an identifier that the constructor accepts. *)
Lemma constructed_ids_are_accepted (l : Loop) (c : Client) (o : ClientObj) :
  reachable l -> objects (world l) !! c = Some o -> valid_clientId (clientId o) = true.
Proof.
  intros Hreach Ho. destruct (reachable_audited l Hreach) as [[_ _ Hpath] _].
  rewrite Forall_forall in Hpath. apply Hpath. by eapply list_elem_of_lookup_2.
Qed.

(** X12. In every state the event loop can reach, [initialize] has been
    called exactly once on each client constructed so far, and never on
    anything else: no client is initialized twice, none is left without
    the call. *)
Theorem every_client_is_initialized_once (l : Loop) (c : Client) :
  reachable l ->
  initialized c (trace (world l)) =
  if decide (c < List.length (objects (world l))) then 1 else 0.
Proof. intros Hreach. apply (audited_init _ (proj1 (reachable_audited l Hreach))). Qed.

Lemma every_client_is_initialized_once_witness :
  reachable loop_started_twice /\ initialized 0 (trace (world loop_started_twice)) = 1.
Proof.
  assert (Hreach : reachable loop_started_twice).
  { exists ".wwebjs_auth". eapply rtc_l; [|apply rtc_once].
    - by apply (step_request (boot ".wwebjs_auth") (ReqStart "u1")).
    - by apply (step_request loop_started (ReqStart "u1")). }
  split; [exact Hreach|].
  exact (every_client_is_initialized_once loop_started_twice 0 Hreach).
Defined.

(** X13. In every reachable state, the pairing artifact that [getQr]
    answers for a tenant is a challenge that was pushed to that tenant's
    room: polling never shows a QR that the push channel did not carry. *)
Theorem polled_qr_was_pushed (l : Loop) (T q : string) :
  reachable l ->
  getQr T (world l) = Some q ->
  In (Emitted T "qr" (DQr q)) (trace (world l)).
Proof. intros Hreach. apply (audited_qr _ (proj1 (reachable_audited l Hreach))). Qed.

Lemma polled_qr_was_pushed_witness :
  reachable loop_pairing /\ getQr "u1" (world loop_pairing) = Some "2@abc" /\
  In (Emitted "u1" "qr" (DQr "2@abc")) (trace (world loop_pairing)).
Proof.
  assert (Hreach : reachable loop_pairing).
  { exists ".wwebjs_auth". eapply rtc_l; [|apply rtc_once].
    - by apply (step_request (boot ".wwebjs_auth") (ReqStart "u1")).
    - by apply (step_request loop_started (ReqEvent 0 (EvQr "2@abc"))). }
  split; [exact Hreach|]. split; [reflexivity|].
  exact (polled_qr_was_pushed loop_pairing "u1" "2@abc" Hreach eq_refl).
Defined.

(** X14. In every reachable state, the client registered for a tenant
    keeps its credentials where [deleteSession] looks for them: the
    directory [deleteSession T] checks and removes is "session-" followed
    by the client's identifier, under the client's own data path. *)
Theorem deleteSession_targets_the_clients_credentials (l : Loop) (T : string) (c : Client)
        (orc : Oracle) (present : bool) :
  reachable l ->
  getClient T (world l) = Some c ->
  (forall call, is_Some (orc call)) ->
  orc (PathExists (Join (authDir (world l)) ("session-" ++ T))) = Some (Resolved present) ->
  exists o,
    objects (world l) !! c = Some o /\
    clientId o = T /\
    dataPath o = authDir (world l) /\
    In (Issued (PathExists (Join (dataPath o) ("session-" ++ clientId o))))
       (since (world l) (exec orc (deleteSession T) (world l))) /\
    (present = true ->
     In (Issued (Remove (Join (dataPath o) ("session-" ++ clientId o))))
        (since (world l) (exec orc (deleteSession T) (world l)))).
Proof.
  intros Hreach Hc Hall Hp.
  destruct (proj1 (reachable_sound l Hreach) T c Hc) as (o & Ho & Hid).
  destruct (reachable_audited l Hreach) as [[_ _ Hpath] _].
  rewrite Forall_forall in Hpath.
  assert (Hd : dataPath o = authDir (world l)).
  { apply Hpath. by eapply list_elem_of_lookup_2. }
  exists o. split; [done|]. split; [done|]. split; [done|].
  destruct (deleteSession_run orc (world l) T present Hall Hp)
    as (_ & _ & _ & _ & _ & _ & Htr).
  cbn zeta in Htr. rewrite (since_extends _ _ _ Htr), Hd, Hid.
  split.
  - rewrite !in_app_iff. right. left. by left.
  - intros ->. rewrite !in_app_iff. right. right. left. by left.
Qed.

Lemma deleteSession_targets_the_clients_credentials_witness :
  reachable loop_started /\
  getClient "u1" (world loop_started) = Some 0 /\
  (forall call, is_Some (obliging call)) /\
  obliging (PathExists (Join ".wwebjs_auth" "session-u1")) = Some (Resolved true) /\
  exists o, objects (world loop_started) !! 0 = Some o /\ dataPath o = ".wwebjs_auth".
Proof.
  assert (Hreach : reachable loop_started).
  { exists ".wwebjs_auth". apply rtc_once.
    by apply (step_request (boot ".wwebjs_auth") (ReqStart "u1")). }
  assert (Hall : forall call, is_Some (obliging call)) by (intros []; cbn; eauto).
  split; [exact Hreach|]. split; [reflexivity|]. split; [exact Hall|].
  split; [reflexivity|].
  destruct (deleteSession_targets_the_clients_credentials loop_started "u1" 0 obliging true
              Hreach eq_refl Hall eq_refl) as (o & Ho & _ & Hd & _).
  exists o. split; [exact Ho | exact Hd].
Defined.

(** ** The middlewares *)

Lemma split_on_nonempty (sep : Ascii.ascii) (s : string) : split_on sep s <> [].
Proof.
  induction s as [|c s IH]; cbn; [done|].
  destruct (Ascii.eqb c sep); [done|]. by destruct (split_on sep s).
Qed.

Lemma split_on_spaceless (s : string) :
  spaceless s = true -> split_on space s = [s].
Proof.
  induction s as [|c s IH]; cbn; [done|].
  intros [Hc Hs]%andb_true_iff. apply negb_true_iff in Hc. rewrite Hc.
  by rewrite (IH Hs).
Qed.

Lemma split_on_field (a r : string) :
  spaceless a = true ->
  split_on space (a ++ String space r) = a :: split_on space r.
Proof.
  induction a as [|c a IH]; cbn [spaceless].
  - intros _. change ("" ++ String space r) with (String space r).
    cbn [split_on]. by rewrite Ascii.eqb_refl.
  - intros [Hc Ha]%andb_true_iff. apply negb_true_iff in Hc.
    change (String c a ++ String space r) with (String c (a ++ String space r)).
    cbn [split_on]. rewrite Hc. by rewrite (IH Ha).
Qed.

Lemma bearer_token_field (scheme token : string) :
  spaceless scheme = true -> spaceless token = true ->
  bearer_token (Js.Text (scheme ++ String space token)) = Js.Text token.
Proof.
  intros Hs Ht. unfold bearer_token.
  by rewrite (split_on_field _ _ Hs), (split_on_spaceless _ Ht).
Qed.

Lemma supabaseAuth_passed (authorization : Js.text) (getUser : string -> UserAnswer)
      (u : string) :
  supabaseAuth authorization getUser = Passed u <->
  exists token, bearer_token authorization = Js.Text token /\ token <> "" /\
                vouched getUser token u.
Proof.
  unfold supabaseAuth, vouched.
  destruct (bearer_token authorization) as [| |[|c t]] eqn:Hb; cbn.
  - split; [discriminate|]. by intros (? & [=] & _).
  - split; [discriminate|]. by intros (? & [=] & _).
  - split; [discriminate|]. by intros (? & [= <-] & ? & _).
  - destruct (ua_error (getUser (String c t))) as [e|] eqn:He;
      destruct (ua_user (getUser (String c t))) as [v|] eqn:Hv.
    + split; [discriminate|]. intros (? & [= <-] & _ & _ & Hn). congruence.
    + split; [discriminate|]. intros (? & [= <-] & _ & _ & Hn). congruence.
    + split.
      * intros [= ->]. exists (String c t). by rewrite He, Hv.
      * intros (? & [= <-] & _ & Hu & _). congruence.
    + split; [discriminate|]. intros (? & [= <-] & _ & Hu & _). congruence.
Qed.

(** X15. The header the dashboard builds from its access token, a token
    without spaces, yields that token back in the middleware, so the
    request passes as the user the auth service vouches for, and as nobody
    else. *)
Theorem dashboard_token_reaches_the_auth_service
        (token : string) (getUser : string -> UserAnswer) :
  spaceless token = true -> token <> "" ->
  bearer_token (Js.Text (authorization_header token)) = Js.Text token /\
  forall u, supabaseAuth (Js.Text (authorization_header token)) getUser = Passed u <->
            vouched getUser token u.
Proof.
  intros Hs Hne.
  assert (Hb : bearer_token (Js.Text (authorization_header token)) = Js.Text token).
  { apply (bearer_token_field "Bearer" token); [reflexivity|exact Hs]. }
  split; [exact Hb|]. intros u. rewrite supabaseAuth_passed. split.
  - intros (t & Ht & _ & Hv). rewrite Hb in Ht. by injection Ht as <-.
  - intros Hv. by exists token.
Qed.

Lemma dashboard_token_reaches_the_auth_service_witness :
  (spaceless "eyJhbGci.abc" = true /\ "eyJhbGci.abc" <> "") /\
  bearer_token (Js.Text (authorization_header "eyJhbGci.abc")) = Js.Text "eyJhbGci.abc".
Proof.
  split; [split; [reflexivity|discriminate]|].
  apply (dashboard_token_reaches_the_auth_service
           "eyJhbGci.abc" (fun _ => mkUserAnswer (Some "alice") None));
    [reflexivity|discriminate].
Defined.

(** X16. The session middleware lets a request through only as a user the
    auth service vouched for, for the non-empty second field of the
    header; a header that is absent or has no space in it is answered 401
    whatever the auth service would say, and the scheme word is not
    looked at. *)
Theorem supabaseAuth_passes_only_vouched_users
        (authorization : Js.text) (getUser : string -> UserAnswer) :
  (forall u, supabaseAuth authorization getUser = Passed u ->
     exists s token, authorization = Js.Text s /\
                     split_on space s !! 1 = Some token /\ token <> "" /\
                     vouched getUser token u) /\
  ((forall s, authorization = Js.Text s -> spaceless s = true) ->
   supabaseAuth authorization getUser = Denied (mkReply 401 (BError "Missing token"))) /\
  (forall scheme token,
     authorization = Js.Text (scheme ++ String space token) ->
     spaceless scheme = true -> spaceless token = true ->
     supabaseAuth authorization getUser =
     supabaseAuth (Js.Text (authorization_header token)) getUser).
Proof.
  split_and!.
  - intros u (token & Hb & Hne & Hv)%supabaseAuth_passed.
    destruct authorization as [| |s]; try discriminate Hb.
    exists s, token. split_and!; try done.
    unfold bearer_token in Hb. destruct (split_on space s !! 1); congruence.
  - intros Hs. destruct authorization as [| |s]; try reflexivity.
    unfold supabaseAuth, bearer_token. by rewrite (split_on_spaceless s (Hs s eq_refl)).
  - intros scheme token -> Hs Ht. unfold supabaseAuth.
    rewrite (bearer_token_field scheme token Hs Ht).
    change (authorization_header token) with ("Bearer" ++ String space token).
    by rewrite (bearer_token_field "Bearer" token eq_refl Ht).
Qed.

Lemma supabaseAuth_passes_only_vouched_users_witness :
  supabaseAuth (Js.Text "Token abc") (fun _ => mkUserAnswer (Some "alice") None) =
  Passed "alice" /\
  exists s token, Js.Text "Token abc" = Js.Text s /\
                  split_on space s !! 1 = Some token /\ token <> "" /\
                  vouched (fun _ => mkUserAnswer (Some "alice") None) token "alice".
Proof.
  split; [reflexivity|].
  apply (proj1 (supabaseAuth_passes_only_vouched_users
                  (Js.Text "Token abc") (fun _ => mkUserAnswer (Some "alice") None))).
  reflexivity.
Defined.

Lemma apiKeyAuth_passed (x_api_key : Js.text) (lookup : string -> KeyAnswer) (u : string) :
  apiKeyAuth x_api_key lookup = Passed u <->
  exists key, x_api_key = Js.Text key /\ key <> "" /\ key_of lookup key u.
Proof.
  unfold apiKeyAuth, key_of. destruct x_api_key as [| |[|c k]]; cbn.
  - split; [discriminate|]. by intros (? & [=] & _).
  - split; [discriminate|]. by intros (? & [=] & _).
  - split; [discriminate|]. by intros (? & [= <-] & ? & _).
  - destruct (ka_error (lookup (String c k))) as [e|] eqn:He;
      destruct (ka_user_id (lookup (String c k))) as [v|] eqn:Hv.
    + split; [discriminate|]. intros (? & [= <-] & _ & _ & Hn). congruence.
    + split; [discriminate|]. intros (? & [= <-] & _ & _ & Hn). congruence.
    + split.
      * intros [= ->]. exists (String c k). by rewrite He, Hv.
      * intros (? & [= <-] & _ & Hu & _). congruence.
    + split; [discriminate|]. intros (? & [= <-] & _ & Hu & _). congruence.
Qed.

(** ** The API key *)



(** X18. The dashboard and the configuration route draw the same line: an
    input the dashboard posts is accepted by the route and stored
    unchanged, and an input the dashboard holds back would have been
    refused with 400. *)
Theorem dashboard_and_route_agree_on_the_api_key (u input : string) :
  match dashboard_saveApiKey input with
  | Some posted => posted = Js.Text input /\ save_apikey u posted = KeyUpsert u input
  | None =>
    save_apikey u (Js.Text input) =
    KeyRefused (mkReply 400 (BError "API Key must be at least 8 characters"))
  end.
Proof.
  unfold dashboard_saveApiKey, save_apikey.
  destruct (Nat.ltb_spec (String.length input) 8) as [Hlt|Hge].
  - destruct input as [|c k]; [reflexivity|]. cbn [Js.truthy negb orb Js.or].
    by destruct (Nat.ltb_spec (String.length (String c k)) 8); [|lia].
  - destruct input as [|c k]; [cbn in Hge; lia|]. split; [reflexivity|].
    cbn [Js.truthy negb orb Js.or].
    by destruct (Nat.ltb_spec (String.length (String c k)) 8); [lia|].
Qed.

(** ** Sending a message *)

Lemma includes_app (pat a b : string) : Js.includes pat (a ++ pat ++ b) = true.
Proof. apply includes_spec. by exists a, b. Qed.

Lemma chatId_of_includes (number : string) : Js.includes "@c.us" (chatId_of number) = true.
Proof.
  unfold chatId_of. destruct (Js.includes "@c.us" number) eqn:E; [exact E|].
  apply includes_spec. by exists number, "".
Qed.

(** X19. The chat id sent to always names a contact: it contains "@c.us",
    it starts with the number as given, and a number that is already a
    chat id is left as it is, so building the chat id twice changes
    nothing. *)
Theorem chatId_always_names_a_contact (number : string) :
  Js.includes "@c.us" (chatId_of number) = true /\
  (exists rest, chatId_of number = number ++ rest) /\
  chatId_of (chatId_of number) = chatId_of number.
Proof.
  split; [apply chatId_of_includes|]. split.
  - unfold chatId_of. destruct (Js.includes "@c.us" number).
    + exists "". clear. induction number as [|c s IH]; [done|].
      change (String c s ++ "") with (String c (s ++ "")). by f_equal.
    + by exists "@c.us".
  - unfold chatId_of at 1. by rewrite chatId_of_includes.
Qed.

(** X20. Behind its middleware the send route hands a message to a client
    only when the API key is that of a user, the number is given and that
    user has a client registered: it is this client the message goes
    through, to the chat id of the number, and a plain text only when no
    media was given.  Every other request is answered 401, 403, 400 or
    503 without a send. *)
Theorem messages_go_through_the_key_owners_client
        (x_api_key : Js.text) (lookup : string -> KeyAnswer) (req : SendRequest) (w : World) :
  match api_send_message x_api_key lookup req w with
  | SendTo c chatId content =>
    exists key u number,
      x_api_key = Js.Text key /\ key_of lookup key u /\
      getClient u w = Some c /\
      sr_number req = Js.Text number /\ number <> "" /\ chatId = chatId_of number /\
      (forall text, content = CText text ->
         Js.truthy (sr_mediaBase64 req) = false /\ Js.truthy (sr_mediaUrl req) = false /\
         text = Js.or (sr_message req) "")
  | Answer reply =>
    code reply = 401 \/ code reply = 403 \/
    (code reply = 400 /\ Js.truthy (sr_number req) = false) \/
    (code reply = 503 /\ exists u, apiKeyAuth x_api_key lookup = Passed u /\
                                   getClient u w = None)
  end.
Proof.
  unfold api_send_message.
  destruct (apiKeyAuth x_api_key lookup) as [reply|u] eqn:Hauth.
  - unfold apiKeyAuth in Hauth. destruct (negb (Js.truthy x_api_key)).
    + injection Hauth as <-. by left.
    + destruct (ka_error (lookup (Js.or x_api_key ""))),
        (ka_user_id (lookup (Js.or x_api_key ""))); try discriminate Hauth;
        injection Hauth as <-; right; by left.
  - apply apiKeyAuth_passed in Hauth as (key & -> & Hne & Hkey).
    unfold send_message. destruct (sr_number req) as [| |[|c n]] eqn:Hn; cbn [Js.truthy negb].
    + right; right; by left.
    + right; right; by left.
    + right; right; by left.
    + destruct (getClient u w) as [cl|] eqn:Hc.
      * cbn [Js.or].
        destruct (Js.truthy (sr_mediaBase64 req)) eqn:Hb;
          [|destruct (Js.truthy (sr_mediaUrl req)) eqn:Hu];
          exists key, u, (String c n); split_and!; try done.
        intros text [= <-]. done.
      * right; right; right. split; [done|]. by exists u.
Qed.

(** ** The session routes *)

Lemma start_route_world (orc : Oracle) (w : World) (T : string) :
  final (exec orc (route_start T) w) = settle (exec silent (startClient T ;; Ret tt) w) /\
  parked (exec orc (route_start T) w) =
  (parked (exec silent (startClient T ;; Ret tt) w) ++
   waiting (exec silent (startClient T ;; Ret tt) w))%list /\
  status (exec orc (route_start T) w) =
  Finished (Normal (mkReply 200 (BStarted "Client initializing..."))).
Proof.
  cbn [route_start detach bind try_catch exec final status parked].
  by rewrite app_nil_r.
Qed.

(** X21. The start route answers success in the turn of the request,
    whatever the outside does: nothing is awaited, so its 500 branch is
    never taken, not when the client's initialization is still to fail and
    not when the start itself fails.  What it has done when it answers is
    one turn of a start for the tenant, as the loop takes it.  The tenant
    is registered then exactly if it was before or the client constructor
    accepts its identifier; every other registration is as before, and the
    only thing left waiting is the initialization of the tenant's client.
    For an unregistered tenant whose identifier the constructor refuses,
    the route has logged the start and pushed INITIALIZING, the start has
    rejected with nobody to catch it, and the tenant has no client. *)
Theorem start_route_answers_at_once (orc : Oracle) (w : World) (T : string) :
  let r := exec orc (route_start T) w in
  status r = Finished (Normal (mkReply 200 (BStarted "Client initializing..."))) /\
  mkLoop (final r) (parked r) = turn (startClient T ;; Ret tt) [] w /\
  (is_Some (getClient T (final r)) <->
   is_Some (getClient T w) \/ valid_clientId T = true) /\
  (forall u c, getClient u w = Some c -> getClient u (final r) = Some c) /\
  (forall pd, In pd (parked r) ->
     exists c, pcall pd = Initialize c /\ getClient T (final r) = Some c) /\
  (getClient T w = None -> valid_clientId T = false ->
   getClient T (final r) = None /\
   parked r = [] /\
   since w r = [Console LLog ("Starting client for " ++ T) None;
                Emitted T "status" (DStatus "INITIALIZING");
                Unhandled invalid_clientId]).
Proof.
  destruct (startClient_detached T w) as (Hpk & Hkeep & Hnews & _ & Hreg & Hwait).
  destruct (start_route_world orc w T) as (Hf & Hp & Hs).
  cbn zeta in *. unfold getClient, since. rewrite Hf, Hp, Hs.
  set (o := exec silent (startClient T;; Ret tt) w) in *.
  split; [done|]. split; [done|]. split; [|split; [|split]].
  - split; [|exact Hreg]. intros [c Hc].
    destruct (Hnews T c Hc) as [Hw | [_ Hv]]; [left; by exists c | by right].
  - exact Hkeep.
  - intros pd. rewrite Hpk. cbn [app]. intros Hin.
    destruct (Hwait pd Hin) as (c & H1 & H2 & _). by exists c.
  - intros Hnone Hv. subst o.
    rewrite (proj2 (startClient_refused silent w T Hnone Hv)). cbn.
    rewrite <- !app_assoc, drop_app_length. by split_and!.
Qed.

Lemma start_route_answers_at_once_witness :
  (getClient "a.b" (world (boot ".wwebjs_auth")) = None /\ valid_clientId "a.b" = false) /\
  status (exec obliging (route_start "a.b") (world (boot ".wwebjs_auth"))) =
  Finished (Normal (mkReply 200 (BStarted "Client initializing..."))) /\
  getClient "a.b" (final (exec obliging (route_start "a.b") (world (boot ".wwebjs_auth")))) =
  None.
Proof.
  split; [split; reflexivity|].
  destruct (start_route_answers_at_once obliging (world (boot ".wwebjs_auth")) "a.b")
    as (Hs & _ & _ & _ & _ & Href).
  split; [exact Hs|]. exact (proj1 (Href eq_refl eq_refl)).
Defined.

(** X22. Once every call of the logout route has settled, the tenant has
    no client whatever the outcomes were.  If the check of the session
    directory resolved, the route answers success after [disconnected]
    was pushed to the tenant's room; if that check was rejected, the
    route ends in that rejection without an answer, and nothing was pushed
    to the tenant's room. *)
Theorem logout_route_ends_the_session (orc : Oracle) (w : World) (T : string) :
  (forall call, is_Some (orc call)) ->
  let r := exec orc (route_logout T) w in
  getClient T (final r) = None /\
  match orc (PathExists (Join (authDir w) ("session-" ++ T))) with
  | Some (Resolved _) =>
    status r = Finished (Normal (mkReply 200 BSuccess)) /\
    last (since w r) = Some (Emitted T "disconnected" (DReason "logout"))
  | Some (Rejected e) =>
    status r = Finished (Thrown e) /\ unheard T (since w r)
  | None => False
  end.
Proof.
  intros Hall. unfold getClient, unheard, since. cbn.
  destruct (Hall (PathExists (Join (authDir w) ("session-" ++ T)))) as [pe Hpe].
  destruct (Hall (Remove (Join (authDir w) ("session-" ++ T)))) as [re Hre].
  destruct (clients w !! T) as [c|] eqn:Hc; cbn.
  - destruct (Hall (Logout c)) as [lo Hlo]. rewrite Hlo.
    destruct (Hall (Destroy c)) as [de Hde].
    destruct lo as [[]|e1]; cbn; rewrite Hde; destruct de as [[]|e2]; cbn;
      rewrite Hpe; destruct pe as [[]|e0]; cbn; rewrite ?Hre;
      try (destruct re as [[]|e3]; cbn);
      rewrite <- ?app_assoc, ?drop_app_length; cbn;
      (split; [apply lookup_delete_eq|]); split; try done;
      intros ev data Hin; cbn in Hin; intuition discriminate.
  - rewrite Hpe; destruct pe as [[]|e0]; cbn; rewrite ?Hre;
      try (destruct re as [[]|e3]; cbn);
      rewrite <- ?app_assoc, ?drop_app_length; cbn;
      (split; [exact Hc|]); split; try done;
      intros ev data Hin; cbn in Hin; intuition discriminate.
Qed.

Lemma logout_route_ends_the_session_witness :
  (forall call, is_Some (obliging call)) /\
  getClient "u1" (final (exec obliging (route_logout "u1") (world loop_started))) = None.
Proof.
  split; [intros call; destruct call; cbn; eauto|].
  apply (logout_route_ends_the_session obliging (world loop_started) "u1").
  intros call; destruct call; cbn; eauto.
Defined.

(** ** The dashboard *)

Lemma addLog_length (msg : string) (d : Dashboard) :
  List.length (d_debugLog (addLog msg d)) <= 10.
Proof. unfold addLog. cbn [d_debugLog]. rewrite length_take. lia. Qed.

Lemma on_socket_shape (ev : SocketEvent) (d : Dashboard) :
  coherent d ->
  coherent (on_socket ev d) /\ List.length (d_debugLog (on_socket ev d)) <= 10.
Proof.
  intros Hd. destruct ev as [sid uid | msg json | data | | st | ]; cbn [on_socket].
  - split; [exact Hd | apply addLog_length].
  - split; [exact Hd | apply addLog_length].
  - split; [by intros _ | apply addLog_length].
  - split; [by intros [] | apply addLog_length].
  - destruct (String.eqb st "CONNECTED").
    + split; [by intros [] | apply addLog_length].
    + split; [exact Hd | apply addLog_length].
  - split; [by intros [] | apply addLog_length].
Qed.

(** X23. Whatever arrives on its socket and in whatever order, the
    dashboard shows a pairing code only while its status is CONNECTING,
    and its debug log never holds more than ten lines. *)
Theorem dashboard_keeps_its_shape (evs : list SocketEvent) (d : Dashboard) :
  coherent d -> List.length (d_debugLog d) <= 10 ->
  coherent (run_socket evs d) /\ List.length (d_debugLog (run_socket evs d)) <= 10.
Proof.
  revert d. induction evs as [|ev evs IH]; intros d Hc Hl; [done|].
  cbn [run_socket fold_left]. destruct (on_socket_shape ev d Hc) as [Hc' Hl'].
  by apply IH.
Qed.

Lemma dashboard_keeps_its_shape_witness :
  (coherent dashboard_start /\ List.length (d_debugLog dashboard_start) <= 10) /\
  coherent (run_socket [SQr "2@abc"; SStatus "INITIALIZING"; SReady] dashboard_start) /\
  List.length (d_debugLog (run_socket [SQr "2@abc"; SStatus "INITIALIZING"; SReady]
                                      dashboard_start)) <= 10.
Proof.
  assert (H0 : coherent dashboard_start) by (intros _; reflexivity).
  assert (H1 : List.length (d_debugLog dashboard_start) <= 10) by (cbn; lia).
  split; [by split|].
  exact (dashboard_keeps_its_shape _ _ H0 H1).
Defined.

(** ** From the manager to the dashboard *)

Lemma watch_app (T : string) (l1 l2 : list Effect) (d : Dashboard) :
  watch T (l1 ++ l2) d = watch T l2 (watch T l1 d).
Proof. apply fold_left_app. Qed.

Lemma watch_foreign (T U : string) (l : list Effect) (d : Dashboard) :
  U <> T -> Forall (addressed U) l -> watch T l d = d.
Proof.
  intros HU Hl. revert d. induction Hl as [|e l He Hl IH]; intros d; [done|].
  cbn [watch fold_left]. fold (watch T l). destruct e as [room ev data| | |]; cbn in *.
  - subst room. destruct (String.eqb_spec U T) as [->|_]; [done|]. apply IH.
  - apply IH.
  - apply IH.
  - apply IH.
Qed.

Lemma since_within {A : Type} (T : string) (w : World) (r : Out A) :
  within T w (final r) -> Forall (addressed T) (since w r).
Proof.
  intros [_ _ (suf & Ht & Hs)]. unfold since. by rewrite Ht, drop_app_length.
Qed.

(** Answering after a task changes neither the world it leaves nor the
    tasks it detaches. *)
Lemma exec_answer {A B : Type} (p : Prog A) (b : B) :
  forall orc w,
    final (exec orc (p ;; Ret b) w) = final (exec orc p w) /\
    parked (exec orc (p ;; Ret b) w) = parked (exec orc p w).
Proof.
  induction p as [A a | A e | A X f k IH | A c k IH | A t IHt k IHk]; intros orc w; cbn.
  - done.
  - done.
  - apply IH.
  - destruct (orc c) as [s|]; [apply IH | done].
  - destruct (IHk orc (settle (exec silent t w))) as [H1 H2]. by rewrite H1, H2.
Qed.

Lemma within_exec (T : string) (p : Prog unit) (orc : Oracle) (w : World) :
  orderly (within T) p -> within T w (final (exec orc p w)).
Proof.
  intros Hp.
  apply (orderly_exec (within T) (within T) (within_refl T) (within_trans T)
           (fun _ _ H => H) _ Hp orc w w (within_refl T w)).
Qed.

Lemma within_turn (T : string) (p : Prog unit) (w : World) :
  orderly (within T) p -> within T w (settle (exec silent p w)).
Proof.
  intros Hp.
  apply (tame_inv _ _ (orderly_tame (within T) (within T) (within_refl T) (within_trans T)
                         (fun _ _ H => H) p Hp)).
Qed.

(** X24. Nothing another tenant's session does reaches a dashboard: the
    handler of any event of a client of tenant U, a start request and a
    logout request for U leave the dashboard of every other tenant T
    exactly as it was, however the outside answers. *)
Theorem other_tenants_never_reach_a_dashboard
        (T U : string) (orc : Oracle) (w : World) (d : Dashboard) :
  U <> T ->
  (forall ev, seen T w (exec orc (handler U ev) w) d = d) /\
  seen T w (exec orc (route_start U) w) d = d /\
  seen T w (exec orc (route_logout U) w) d = d.
Proof.
  intros HU. unfold seen. split_and!.
  - intros ev. apply (watch_foreign T U); [exact HU|].
    apply since_within, within_exec, orderly_within_handler.
  - apply (watch_foreign T U); [exact HU|]. apply since_within.
    destruct (start_route_world orc w U) as [-> _].
    apply within_turn, orderly_within_startClient.
  - apply (watch_foreign T U); [exact HU|]. apply since_within.
    unfold route_logout. rewrite (proj1 (exec_answer (deleteSession U) _ orc w)).
    apply within_exec, orderly_within_deleteSession.
Qed.

Lemma other_tenants_never_reach_a_dashboard_witness :
  "u1" <> "u2" /\
  seen "u2" (world loop_started)
       (exec obliging (route_logout "u1") (world loop_started)) dashboard_start =
  dashboard_start.
Proof.
  split; [discriminate|].
  apply (other_tenants_never_reach_a_dashboard
           "u2" "u1" obliging (world loop_started) dashboard_start).
  discriminate.
Defined.

Lemma watch_own (T event : string) (data : EventData) (d : Dashboard) :
  watch T [Emitted T event data] d =
  match arrives T (Emitted T event data) with
  | Some ev => on_socket ev d
  | None => d
  end.
Proof. reflexivity. Qed.

Lemma arrives_own (T event : string) (data : EventData) :
  arrives T (Emitted T event data) =
  match data with
  | DQr qr => if String.eqb event "qr" then Some (SQr qr) else None
  | DEmpty => if String.eqb event "ready" then Some SReady else None
  | DStatus s => if String.eqb event "status" then Some (SStatus s) else None
  | DReason _ => if String.eqb event "disconnected" then Some SDisconnected else None
  | DError _ => None
  end.
Proof. cbn. by rewrite String.eqb_refl. Qed.

(** X25. The dashboard of a tenant follows the events of the tenant's
    client: after [qr] it shows that code, the one the poll would return,
    with status CONNECTING; after [ready] it shows no code and CONNECTED;
    after [disconnected] no code and DISCONNECTED.  A start request for a
    tenant that is registered makes it show CONNECTED and no code, whatever
    the state of the client. *)
Theorem dashboard_follows_the_client_events
        (T : string) (orc : Oracle) (w : World) (d : Dashboard) :
  (forall qr,
     let r := exec orc (handler T (EvQr qr)) w in
     d_qr (seen T w r d) = Some qr /\ d_status (seen T w r d) = CONNECTING /\
     route_qr T (final r) = d_qr (seen T w r d)) /\
  (let r := exec orc (handler T EvReady) w in
   d_qr (seen T w r d) = None /\ d_status (seen T w r d) = CONNECTED /\
   route_qr T (final r) = None) /\
  (forall reason,
     let r := exec orc (handler T (EvDisconnected reason)) w in
     d_qr (seen T w r d) = None /\ d_status (seen T w r d) = DISCONNECTED) /\
  (forall c, getClient T w = Some c ->
     let r := exec orc (route_start T) w in
     d_qr (seen T w r d) = None /\ d_status (seen T w r d) = CONNECTED).
Proof.
  unfold seen, since, route_qr, getQr, getClient. split; [|split; [|split]].
  - intros qr. cbn. rewrite <- ?app_assoc, drop_app_length. cbn.
    rewrite String.eqb_refl. cbn. by rewrite lookup_insert_eq.
  - cbn. rewrite <- ?app_assoc, drop_app_length. cbn.
    rewrite !String.eqb_refl. cbn. by rewrite lookup_delete_eq.
  - intros reason. cbn. rewrite <- ?app_assoc, drop_app_length. cbn.
    by rewrite String.eqb_refl.
  - intros c Hc. cbn. rewrite Hc. cbn. rewrite drop_app_length. cbn.
    by rewrite String.eqb_refl.
Qed.

Lemma dashboard_follows_the_client_events_witness :
  getClient "u1" (world loop_started) = Some 0 /\
  d_status (seen "u1" (world loop_started)
                 (exec silent (route_start "u1") (world loop_started)) dashboard_start) =
  CONNECTED.
Proof.
  split; [reflexivity|].
  apply (proj2 (proj2 (proj2 (dashboard_follows_the_client_events
                                "u1" silent (world loop_started) dashboard_start))) 0).
  reflexivity.
Defined.

(** X26. Failures never change what the dashboard shows.  An
    authentication failure pushes only an [error] event, for which the
    dashboard has no handler, and a message, delivered to the webhook or
    not, pushes nothing: both leave the dashboard as it was.  A start
    whose initialization is rejected leaves the status and the code as
    they were: the dashboard only logs the INITIALIZING update. *)
Theorem failures_never_reach_the_dashboard
        (T : string) (orc : Oracle) (w : World) (d : Dashboard) :
  (forall msg, seen T w (exec orc (handler T (EvAuthFailure msg)) w) d = d) /\
  (forall m, seen T w (exec orc (handler T (EvMessage m)) w) d = d) /\
  (forall e, getClient T w = None ->
     orc (Initialize (List.length (objects w))) = Some (Rejected e) ->
     let d' := seen T w (exec orc (startClient T) w) d in
     d_status d' = d_status d /\ d_qr d' = d_qr d /\
     d_debugLog d' = take 10 ("Status Update: INITIALIZING" :: d_debugLog d)).
Proof.
  unfold seen, since, getClient. split; [|split].
  - intros msg. cbn. rewrite <- ?app_assoc, drop_app_length. cbn.
    by rewrite String.eqb_refl.
  - intros m. cbn.
    destruct (orc (ConfigSelect T)) as [[[[row|] [err|]]|e]|] eqn:Hsel; cbn.
    2: destruct row as [[| |[|a url]] trigger]; cbn.
    5: destruct (String.eqb (Js.or trigger "incoming") "incoming" && m_fromMe m); cbn.
    6: destruct (String.eqb (Js.or trigger "incoming") "outgoing" && negb (m_fromMe m)); cbn.
    7: destruct (orc (AxiosPost _ _)) as [[[]|e]|] eqn:Hpost; cbn.
    all: rewrite <- ?app_assoc; rewrite ?drop_app_length; cbn.
    all: reflexivity.
  - intros e Hc He. cbn. rewrite Hc. cbn.
    unfold new_Client. destruct (valid_clientId T); cbn.
    + rewrite He. cbn. rewrite <- ?app_assoc, drop_app_length. cbn.
      by rewrite String.eqb_refl.
    + rewrite <- ?app_assoc, drop_app_length. cbn.
      by rewrite String.eqb_refl.
Qed.

Lemma failures_never_reach_the_dashboard_witness :
  (getClient "u1" (world (boot ".wwebjs_auth")) = None /\
   failing_initialize (Initialize (List.length (objects (world (boot ".wwebjs_auth"))))) =
   Some (Rejected "Failed to launch the browser process")) /\
  d_status (seen "u1" (world (boot ".wwebjs_auth"))
                 (exec failing_initialize (startClient "u1") (world (boot ".wwebjs_auth")))
                 dashboard_start) = d_status dashboard_start.
Proof.
  split; [split; reflexivity|].
  apply (proj2 (proj2 (failures_never_reach_the_dashboard
                         "u1" failing_initialize (world (boot ".wwebjs_auth"))
                         dashboard_start)) "Failed to launch the browser process"); reflexivity.
Defined.

(** X27. What the fallback poll does after the socket events.  After
    [ready] the poll is off and the dashboard stays as it is.  After a
    disconnection the dashboard shows no code and DISCONNECTED, but the
    manager still holds the last pairing code of the tenant, so the next
    poll answered for that tenant puts this code back on display while the
    status stays DISCONNECTED. *)
Theorem poll_after_the_socket_events
        (T token : string) (getUser : string -> UserAnswer) (orc : Oracle) (w : World)
        (d : Dashboard) (q : string) :
  supabaseAuth (Js.Text (authorization_header token)) getUser = Passed T ->
  getQr T w = Some q -> q <> "" ->
  (let r := exec orc (handler T EvReady) w in
   poll_qr token getUser (final r) (seen T w r d) = seen T w r d) /\
  (forall reason,
     let r := exec orc (handler T (EvDisconnected reason)) w in
     let d' := poll_qr token getUser (final r) (seen T w r d) in
     d_qr (seen T w r d) = None /\
     d_qr d' = Some q /\ d_status d' = DISCONNECTED).
Proof.
  intros Hauth Hq Hne. unfold seen, since, getQr in *. split.
  - cbn. rewrite <- ?app_assoc, drop_app_length. cbn.
    rewrite !String.eqb_refl. reflexivity.
  - intros reason. cbn. rewrite <- ?app_assoc, drop_app_length. cbn.
    rewrite String.eqb_refl. cbn. split; [reflexivity|].
    unfold poll_qr. cbn [d_status setQr setStatus addLog]. rewrite Hauth.
    unfold route_qr, getQr. cbn [lastQr with_clients record]. rewrite Hq.
    destruct q as [|a q]; [done|]. by cbn.
Qed.

Lemma poll_after_the_socket_events_witness :
  (supabaseAuth (Js.Text (authorization_header "tok"))
                (fun _ => mkUserAnswer (Some "u1") None) = Passed "u1" /\
   getQr "u1" (world loop_pairing) = Some "2@abc" /\ "2@abc" <> "") /\
  d_qr (poll_qr "tok" (fun _ => mkUserAnswer (Some "u1") None)
          (final (exec silent (handler "u1" (EvDisconnected "NAVIGATION"))
                       (world loop_pairing)))
          (seen "u1" (world loop_pairing)
                (exec silent (handler "u1" (EvDisconnected "NAVIGATION"))
                      (world loop_pairing)) dashboard_start)) = Some "2@abc".
Proof.
  split; [split_and!; [reflexivity|reflexivity|discriminate]|].
  apply (proj2 (poll_after_the_socket_events
                  "u1" "tok" (fun _ => mkUserAnswer (Some "u1") None) silent
                  (world loop_pairing) dashboard_start "2@abc"
                  eq_refl eq_refl ltac:(discriminate)) "NAVIGATION").
Defined.

(** ** The API routes and the registry *)

(** X28. The two API routes read the same registry: the status route
    reports no active session exactly when a send with a number would be
    refused with 503.  As soon as the start route has answered for a
    tenant that was registered or whose identifier the client constructor
    accepts, before the client's initialization has settled, neither is
    the case: the status route asks the client for its state and the send
    route sends.  For an unregistered tenant whose identifier the
    constructor refuses, both still are the case after the start route
    has answered. *)
Theorem status_and_send_routes_agree
        (T : string) (req : SendRequest) (w : World) (getState : Client -> Settled Js.text) :
  Js.truthy (sr_number req) = true ->
  (route_status T w getState = NoActiveSession <->
   send_message T req w = Answer (mkReply 503 (BError "Session not active"))) /\
  (forall orc,
     let w' := final (exec orc (route_start T) w) in
     (is_Some (getClient T w) \/ valid_clientId T = true ->
      route_status T w' getState <> NoActiveSession /\
      exists c chatId content,
        getClient T w' = Some c /\ send_message T req w' = SendTo c chatId content) /\
     (getClient T w = None -> valid_clientId T = false ->
      route_status T w' getState = NoActiveSession /\
      send_message T req w' = Answer (mkReply 503 (BError "Session not active")))).
Proof.
  intros Hn.
  assert (Hagree : forall v,
    (route_status T v getState = NoActiveSession <-> getClient T v = None) /\
    (send_message T req v = Answer (mkReply 503 (BError "Session not active")) <->
     getClient T v = None) /\
    (forall c, getClient T v = Some c ->
       exists chatId content, send_message T req v = SendTo c chatId content)).
  { intros v. unfold route_status, send_message. rewrite Hn. cbn [negb].
    destruct (getClient T v) as [c|].
    - split_and!.
      + split; [|done]. by destruct (getState c).
      + split; [|done].
        by destruct (Js.truthy (sr_mediaBase64 req)), (Js.truthy (sr_mediaUrl req)).
      + intros c' [= <-].
        destruct (Js.truthy (sr_mediaBase64 req)), (Js.truthy (sr_mediaUrl req)); eauto.
    - split_and!; done. }
  split.
  - destruct (Hagree w) as (H1 & H2 & _). by rewrite H1, H2.
  - intros orc w'. destruct (Hagree w') as (H1 & H2 & H3).
    destruct (startClient_detached T w) as (_ & _ & Hnews & _ & Hreg & _).
    cbn zeta in Hnews, Hreg.
    rewrite <- (proj1 (start_route_world orc w T)) in Hnews, Hreg. fold w' in Hnews, Hreg.
    split.
    + intros Hcase. destruct (Hreg Hcase) as [c Hc]. split.
      * rewrite H1. unfold getClient. rewrite Hc. discriminate.
      * destruct (H3 c Hc) as (chatId & content & Hs). by exists c, chatId, content.
    + intros Hnone Hv.
      assert (Hc : getClient T w' = None).
      { unfold getClient in *. destruct (clients w' !! T) as [c|] eqn:E; [|done].
        destruct (Hnews T c E) as [Hw | [_ Hv']]; congruence. }
      by rewrite H1, H2.
Qed.

Lemma status_and_send_routes_agree_witness :
  Js.truthy (sr_number (mkSendRequest (Js.Text "59899123456") (Js.Text "hola")
                                      Js.Undefined Js.Undefined Js.Undefined)) = true /\
  (route_status "u1" (world (boot ".wwebjs_auth")) (fun _ => Resolved (Js.Text "CONNECTED")) =
   NoActiveSession <->
   send_message "u1" (mkSendRequest (Js.Text "59899123456") (Js.Text "hola")
                                    Js.Undefined Js.Undefined Js.Undefined)
                (world (boot ".wwebjs_auth")) =
   Answer (mkReply 503 (BError "Session not active"))).
Proof.
  split; [reflexivity|].
  apply (status_and_send_routes_agree
           "u1" (mkSendRequest (Js.Text "59899123456") (Js.Text "hola")
                               Js.Undefined Js.Undefined Js.Undefined)
           (world (boot ".wwebjs_auth")) (fun _ => Resolved (Js.Text "CONNECTED"))).
  reflexivity.
Defined.
